(** * web_monitoring.diffing_server: the request-to-differ binding pipeline

    A shallow embedding of [src/web_monitoring/diffing_server.py]:
    [load_config], [DiffHandler.get], [_extract_encoding], [caller] and
    [make_app], together with the parts of the Python runtime they lean on
    ([hashlib.sha256], the codecs, keyword-argument calls).

    The codecs UTF-8, Latin-1 and ASCII are written out; the rest of the
    interpreter's codec registry is a parameter, [Codecs.Registry], and
    every statement that depends on decoding holds for all registries.

    Conventions.
    - A Python [bytes] object is a [list byte].
    - A Python [str] is a Rocq [string] holding the UTF-8 encoding of its
      code points, so ASCII literals of the source are ASCII literals here.
    - A Python [dict] keyed by strings is a [gmap string _].
    - Exceptions are values of type [exn]; code that may raise returns a
      [result]. *)

From Stdlib Require Import NArith ZArith List Bool Lia.
From Stdlib.Strings Require Import String Ascii Byte.
From stdpp Require Import base option list strings gmap fin_maps.

Local Open Scope string_scope.
Local Open Scope list_scope.

(** ** Bytes *)

Abbreviation bytes := (list byte).

Definition byte_val (b : byte) : N := Byte.to_N b.

Definition byte_of_N (n : N) : byte :=
  match Byte.of_N (n mod 256) with
  | Some b => b
  | None => x00
  end.

Definition str_of_bytes (bs : bytes) : string := string_of_list_byte bs.
Definition bytes_of_str (s : string) : bytes := list_byte_of_string s.

(** ** hashlib.sha256 (FIPS 180-4), on 32-bit words carried by [N] *)

Module SHA256.

Definition wmask : N := 0xFFFFFFFF.
Definition w32 (x : N) : N := N.land x wmask.
Definition add32 (x y : N) : N := w32 (x + y).
Definition rotr (n x : N) : N :=
  N.lor (N.shiftr x n) (w32 (N.shiftl x (32 - n))).
Definition not32 (x : N) : N := N.lxor x wmask.

Definition Ch (x y z : N) : N := N.lxor (N.land x y) (N.land (not32 x) z).
Definition Maj (x y z : N) : N :=
  N.lxor (N.lxor (N.land x y) (N.land x z)) (N.land y z).
Definition Sigma0 (x : N) : N := N.lxor (N.lxor (rotr 2 x) (rotr 13 x)) (rotr 22 x).
Definition Sigma1 (x : N) : N := N.lxor (N.lxor (rotr 6 x) (rotr 11 x)) (rotr 25 x).
Definition sigma0 (x : N) : N := N.lxor (N.lxor (rotr 7 x) (rotr 18 x)) (N.shiftr x 3).
Definition sigma1 (x : N) : N := N.lxor (N.lxor (rotr 17 x) (rotr 19 x)) (N.shiftr x 10).

(** The constants are given as FIPS 180-4 defines them: the first 32 bits
    of the fractional parts of the cube roots (round constants) and of the
    square roots (initial hash value) of the first primes. *)
Definition is_prime (n : N) : bool :=
  (1 <? n)%N &&
  forallb (fun d => negb (n mod d =? 0)%N) (map N.of_nat (seq 2 (N.to_nat n - 2))).

Definition primes (count : nat) : list N :=
  firstn count (List.filter is_prime (map N.of_nat (seq 2 320))).

(** Integer cube root, one bit at a time from the top. *)
Definition cube_root (n : N) : N :=
  fold_left (fun r i => let c := (r + 2 ^ i)%N in if (c * c * c <=? n)%N then c else r)
            (rev (map N.of_nat (seq 0 40))) 0%N.

Definition K : list N := map (fun p => w32 (cube_root (p * 2 ^ 96))) (primes 64).

Definition H0 : list N := map (fun p => w32 (N.sqrt (p * 2 ^ 64))) (primes 8).

(** Big-endian packing of bytes into words and back. *)
Fixpoint be_words (bs : list N) : list N :=
  match bs with
  | b0 :: b1 :: b2 :: b3 :: rest =>
      (N.shiftl b0 24 + N.shiftl b1 16 + N.shiftl b2 8 + b3)%N :: be_words rest
  | _ => []
  end.

Definition be_bytes (width : nat) (x : N) : list N :=
  map (fun i => N.land (N.shiftr x (8 * N.of_nat i)) 0xFF) (rev (seq 0 width)).

(** Padding: one 0x80 byte, zeros up to 56 mod 64, the bit length on 8 bytes. *)
Definition pad (msg : list N) : list N :=
  let len := length msg in
  let zeros := (Nat.modulo (64 + 55 - Nat.modulo len 64) 64)%nat in
  msg ++ 0x80%N :: repeat 0%N zeros ++ be_bytes 8 (8 * N.of_nat len).

(** Message schedule: [ws] holds the words computed so far, newest first. *)
Fixpoint extend (n : nat) (ws : list N) : list N :=
  match n with
  | O => ws
  | S n' =>
      match ws with
      | w1 :: w2 :: _ =>
          let w7 := nth 6 ws 0%N in
          let w15 := nth 14 ws 0%N in
          let w16 := nth 15 ws 0%N in
          extend n' (add32 (add32 (sigma1 w2) w7) (add32 (sigma0 w15) w16) :: ws)
      | _ => ws
      end
  end.

Definition schedule (block : list N) : list N :=
  rev (extend 48 (rev block)).

Record regs := Regs { ra : N; rb : N; rc : N; rd : N; re : N; rf : N; rg : N; rh : N }.

Definition round (s : regs) (kw : N * N) : regs :=
  let '(k, w) := kw in
  let t1 := add32 (add32 (add32 (rh s) (Sigma1 (re s))) (add32 (Ch (re s) (rf s) (rg s)) k)) w in
  let t2 := add32 (Sigma0 (ra s)) (Maj (ra s) (rb s) (rc s)) in
  Regs (add32 t1 t2) (ra s) (rb s) (rc s) (add32 (rd s) t1) (re s) (rf s) (rg s).

Definition regs_of (h : list N) : regs :=
  Regs (nth 0 h 0%N) (nth 1 h 0%N) (nth 2 h 0%N) (nth 3 h 0%N)
       (nth 4 h 0%N) (nth 5 h 0%N) (nth 6 h 0%N) (nth 7 h 0%N).

Definition list_of (s : regs) : list N :=
  [ra s; rb s; rc s; rd s; re s; rf s; rg s; rh s].

Definition compress (h : list N) (block : list N) : list N :=
  let s := fold_left round (combine K (schedule block)) (regs_of h) in
  map (fun p => add32 (fst p) (snd p)) (combine h (list_of s)).

(** Cut the padded word stream into 16-word blocks; [n] bounds their number. *)
Fixpoint blocks (n : nat) (ws : list N) : list (list N) :=
  match n with
  | O => []
  | S n' =>
      match ws with
      | [] => []
      | _ => firstn 16 ws :: blocks n' (skipn 16 ws)
      end
  end.

Definition digest_words (msg : list N) : list N :=
  let ws := be_words (pad msg) in
  fold_left compress (blocks (length ws) ws) H0.

Definition digest (msg : bytes) : bytes :=
  map byte_of_N (flat_map (be_bytes 4) (digest_words (map byte_val msg))).

End SHA256.

Definition sha256 (body : bytes) : bytes := SHA256.digest body.

(** [hexdigest]: two lowercase hexadecimal digits per byte. *)
Definition hex_digit (n : N) : ascii :=
  if (n <? 10)%N then ascii_of_N (48 + n) else ascii_of_N (87 + n).

Fixpoint hexdigest (d : bytes) : string :=
  match d with
  | [] => EmptyString
  | b :: rest =>
      String (hex_digit (byte_val b / 16)) (String (hex_digit (byte_val b mod 16)) (hexdigest rest))
  end.


(** ** Exceptions and results

    [HTTPError status] is a [tornado.web.HTTPError], with the status that
    Tornado answers it with; the other exceptions are ordinary ones. *)

Inductive exn : Type :=
| KeyError (key : string)
| TypeError (msg : string)
| LookupError (msg : string)
| UnicodeDecodeError
| IndexError
| FetchError (url : string)
| DifferError (msg : string)
| UnicodeError
| HTTPError (status : Z).

Inductive result (A : Type) : Type :=
| Ok (x : A)
| Raise (e : exn).
Arguments Ok {A} x.
Arguments Raise {A} e.

Definition rbind {A B} (m : result A) (f : A -> result B) : result B :=
  match m with
  | Ok x => f x
  | Raise e => Raise e
  end.

Declare Scope result_scope.
Delimit Scope result_scope with result.
Notation "'try' x <- m ;; k" := (rbind m (fun x => k))
  (at level 10, x pattern, m at level 99, k at level 200) : result_scope.

(** ** Python string helpers *)

Fixpoint starts_with (p s : string) : bool :=
  match p, s with
  | EmptyString, _ => true
  | String c p', String d s' => if Ascii.eqb c d then starts_with p' s' else false
  | String _ _, EmptyString => false
  end.

(** [needle in s] *)
Fixpoint contains (needle s : string) : bool :=
  starts_with needle s ||
  match s with
  | EmptyString => false
  | String _ s' => contains needle s'
  end.

(** [s.split(sep)] for a non-empty [sep], scanning left to right.  [skip]
    counts the characters of a matched separator still to be consumed and
    [cur] is the piece being collected, last character first. *)
Fixpoint split_from (sep : string) (skip : nat) (cur : list ascii) (s : string)
  : list string :=
  match s with
  | EmptyString => [string_of_list_ascii (rev cur)]
  | String c s' =>
      match skip with
      | S k => split_from sep k cur s'
      | O =>
          if starts_with sep s
          then string_of_list_ascii (rev cur) :: split_from sep (String.length sep - 1) [] s'
          else split_from sep 0 (c :: cur) s'
      end
  end.

Definition split (sep s : string) : list string := split_from sep 0 [] s.

(** [pieces[-1]]; [split] never returns an empty list. *)
Definition last_piece (pieces : list string) : string := List.last pieces "".

Definition lower_ascii (c : ascii) : ascii :=
  let n := N_of_ascii c in
  if ((65 <=? n) && (n <=? 90))%N then ascii_of_N (n + 32) else c.

Fixpoint map_string (f : ascii -> ascii) (s : string) : string :=
  match s with
  | EmptyString => EmptyString
  | String c s' => String (f c) (map_string f s')
  end.

(** ** The codecs used by [bytes.decode] *)

Module Codecs.

Inductive lead : Type :=
| Single
| Lead (need : nat) (lo hi : N)
| Bad.

(** First byte of a UTF-8 sequence: how many continuation bytes follow and
    the range allowed for the first of them. *)
Definition classify (b : N) : lead :=
  if (b <? 0x80)%N then Single
  else if (b <? 0xC2)%N then Bad
  else if (b <? 0xE0)%N then Lead 1 0x80 0xBF
  else if (b =? 0xE0)%N then Lead 2 0xA0 0xBF
  else if (b =? 0xED)%N then Lead 2 0x80 0x9F
  else if (b <? 0xF0)%N then Lead 2 0x80 0xBF
  else if (b =? 0xF0)%N then Lead 3 0x90 0xBF
  else if (b <? 0xF4)%N then Lead 3 0x80 0xBF
  else if (b =? 0xF4)%N then Lead 3 0x80 0x8F
  else Bad.

(** The UTF-8 scanner.  [pend] holds the bytes of the sequence in progress
    (last first), [need] the continuation bytes still expected, [lo..hi] the
    range of the next one.  Ill-formed bytes are left out of the output and
    reported in the flag; a byte that breaks a sequence is examined again
    as a first byte. *)
Fixpoint utf8_scan (pend : bytes) (need : nat) (lo hi : N) (bs : bytes)
  : bytes * bool :=
  match bs with
  | [] => ([], negb (Nat.eqb need 0))
  | b :: rest =>
      let first (err : bool) : bytes * bool :=
        match classify (byte_val b) with
        | Single => let '(out, e) := utf8_scan [] 0 0%N 0%N rest in (b :: out, err || e)
        | Lead n l h => let '(out, e) := utf8_scan [b] n l h rest in (out, err || e)
        | Bad => let '(out, _) := utf8_scan [] 0 0%N 0%N rest in (out, true)
        end in
      match need with
      | O => first false
      | S n =>
          if ((lo <=? byte_val b) && (byte_val b <=? hi))%N then
            match n with
            | O => let '(out, e) := utf8_scan [] 0 0%N 0%N rest in
                   (rev (b :: pend) ++ out, e)
            | S _ => utf8_scan (b :: pend) n 0x80%N 0xBF%N rest
            end
          else first true
      end
  end.

Definition utf8_decode_ignore (bs : bytes) : string :=
  str_of_bytes (fst (utf8_scan [] 0 0%N 0%N bs)).

Definition utf8_decode_strict (bs : bytes) : result string :=
  let '(out, err) := utf8_scan [] 0 0%N 0%N bs in
  if err then Raise UnicodeDecodeError else Ok (str_of_bytes out).

(** Latin-1: every byte is the code point of the same number. *)
Definition latin1_char (b : byte) : bytes :=
  let n := byte_val b in
  if (n <? 0x80)%N then [b]
  else [byte_of_N (0xC0 + n / 64); byte_of_N (0x80 + n mod 64)].

Definition latin1_decode (bs : bytes) : string :=
  str_of_bytes (flat_map latin1_char bs).

Definition ascii_decode_ignore (bs : bytes) : string :=
  str_of_bytes (List.filter (fun b => (byte_val b <? 0x80)%N) bs).

Inductive codec : Type := UTF8 | Latin1 | ASCII.

(** Encoding names as the codec registry normalises them: lower case, every
    run of characters other than letters, digits and the dot turned into
    one underscore, none at either end.  Bytes outside ASCII are kept. *)
Definition is_name_char (c : ascii) : bool :=
  let n := N_of_ascii c in
  ((48 <=? n) && (n <=? 57) || (65 <=? n) && (n <=? 90) || (97 <=? n) && (n <=? 122)
   || (n =? 46) || (128 <=? n))%N.

Fixpoint normalize_from (punct started : bool) (name : string) : string :=
  match name with
  | EmptyString => EmptyString
  | String c rest =>
      if is_name_char c then
        let tail := String (lower_ascii c) (normalize_from false true rest) in
        if punct && started then String "_" tail else tail
      else normalize_from true started rest
  end.

Definition normalize (name : string) : string := normalize_from false false name.

(** The three codecs written out above, under the names and aliases Python
    knows them by. *)
Definition builtin (name : string) : option codec :=
  let n := normalize name in
  if existsb (String.eqb n) ["utf_8"; "utf8"; "u8"; "utf"; "utf8_ucs2"; "utf8_ucs4"]
  then Some UTF8
  else if existsb (String.eqb n)
            ["latin_1"; "latin1"; "latin"; "l1"; "iso_8859_1"; "iso8859_1"; "iso8859";
             "iso_8859_1_1987"; "iso_ir_100"; "8859"; "cp819"; "ibm819"; "csisolatin1"]
       then Some Latin1
  else if existsb (String.eqb n)
            ["ascii"; "us_ascii"; "us"; "646"; "ansi_x3.4_1968"; "ansi_x3_4_1968";
             "ansi_x3.4_1986"; "cp367"; "ibm367"; "csascii"; "iso646_us";
             "iso_646.irv_1991"; "iso_ir_6"]
       then Some ASCII
  else None.

(** The rest of the interpreter's codec registry is a parameter of the
    development: for the normalised name of every other text encoding that
    the interpreter knows, what decoding with [errors='ignore'] computes.
    The decoder gives [None] where the codec raises [UnicodeError] in spite
    of the error handler, as a few do. *)
Class Registry : Type :=
  other_codecs : string -> option (bytes -> option string).

Definition lookup `{Registry} (name : string) : option (bytes -> option string) :=
  match builtin name with
  | Some UTF8 => Some (fun bs => Some (utf8_decode_ignore bs))
  | Some Latin1 => Some (fun bs => Some (latin1_decode bs))
  | Some ASCII => Some (fun bs => Some (ascii_decode_ignore bs))
  | None => other_codecs (normalize name)
  end.

(** [body.decode(encoding, errors='ignore')] *)
Definition decode_ignore `{Registry} (body : bytes) (encoding : string) : result string :=
  match lookup encoding with
  | Some decode =>
      match decode body with
      | Some text => Ok text
      | None => Raise UnicodeError
      end
  | None => Raise (LookupError ("unknown encoding: " ++ encoding))
  end.

End Codecs.

(** ** Python values handed to, and returned by, a differ *)

#[warnings="-register-all"] Inductive value : Type :=
| VNone
| VBool (b : bool)
| VInt (z : Z)
| VStr (s : string)
| VBytes (bs : bytes)
| VList (items : list value).

(** What [json.dumps] accepts: everything but [bytes]. *)
Fixpoint json_serializable (v : value) : bool :=
  match v with
  | VBytes _ => false
  | VList items => forallb json_serializable items
  | _ => true
  end.

(** ** tornado.httpclient.HTTPResponse

    [request_url] is [response.request.url]; [headers] is keyed by the
    normalised header name, as [HTTPHeaders] does. *)

Record HTTPResponse : Type := mkResponse {
  request_url : string;
  body : bytes;
  headers : gmap string string
}.

(** ** Differ functions

    [fn_params] is [inspect.signature(func).parameters] for a function whose
    parameters can all be passed by keyword: the names in declaration order,
    each with its default ([None] for [inspect._empty]).  [fn_body] is the
    function body, run on the arguments after Python has filled the
    defaults in; its first argument stands for whatever state outside the
    arguments the body may consult. *)

Definition ambient : Type := N.

Record differ : Type := mkDiffer {
  fn_name : string;
  fn_params : list (string * option value);
  fn_body : ambient -> gmap string value -> result value
}.

(** ** Effects: what a request makes happen outside the handler *)

Inductive event : Type :=
| Fetch (url : string)
| Invoke (name : string) (kwargs : gmap string value).

Definition io (A : Type) : Type := (list event * result A)%type.

Definition ret {A} (x : A) : io A := ([], Ok x).
Definition raise {A} (e : exn) : io A := ([], Raise e).
Definition lift {A} (r : result A) : io A := ([], r).
Definition emit (e : event) : io unit := ([e], Ok tt).

Definition bind {A B} (m : io A) (f : A -> io B) : io B :=
  match m with
  | (t, Ok x) => let '(t', r) := f x in (t ++ t', r)
  | (t, Raise e) => (t, Raise e)
  end.

Declare Scope io_scope.
Delimit Scope io_scope with io.
Notation "'do' p <- m ;; k" := (bind m (fun p => k))
  (at level 10, p pattern, m at level 99, k at level 200) : io_scope.
Notation "'run' m ;; k" := (bind m (fun _ => k))
  (at level 10, m at level 99, k at level 200) : io_scope.

(** ** _extract_encoding *)

Definition _extract_encoding (headers : gmap string string) : result (option string) :=
  match headers !! "Content-Type" with
  | None => Raise (KeyError "Content-Type")
  | Some content_type =>
      if contains "charset=" content_type
      then Ok (Some (last_piece (split "charset=" content_type)))
      else Ok None
  end.

(** [x or default] for [x] a string or [None]: the empty string is falsy. *)
Definition or_default (x : option string) (default : string) : string :=
  match x with
  | Some (String c s) => String c s
  | _ => default
  end.

(** ** caller *)

(** [d.setdefault(k, v)] *)
Definition setdefault {V} (k : string) (v : V) (d : gmap string V) : gmap string V :=
  match d !! k with
  | Some _ => d
  | None => <[k := v]> d
  end.

Definition missing_message (fname name : string) : string :=
  fname +:+ " requires a parameter " +:+ name +:+ " which was not provided in the query".

(** The loop over [sig.parameters.items()]. *)
Fixpoint bind_parameters (fname : string) (params : list (string * option value))
    (query_params kwargs : gmap string value) : result (gmap string value) :=
  match params with
  | [] => Ok kwargs
  | (name, default) :: rest =>
      match query_params !! name with
      | Some v => bind_parameters fname rest query_params (<[name := v]> kwargs)
      | None =>
          match default with
          | None => Raise (KeyError (missing_message fname name))
          | Some _ => bind_parameters fname rest query_params kwargs
          end
      end
  end.

(** Calling [caller] with the query parameters as keyword arguments: a
    keyword that names one of [caller]'s own positional parameters ([func],
    [a], [b]) is refused by Python. *)
Definition own_names : list string := ["func"; "a"; "b"].

Definition check_keywords (query_params : gmap string value) : result unit :=
  match List.find (fun k => bool_decide (is_Some (query_params !! k))) own_names with
  | Some k => Raise (TypeError ("caller() got multiple values for argument '" +:+ k +:+ "'"))
  | None => Ok tt
  end.

(** Lines 111-118: the query parameters supplemented with the special items. *)
Definition supplement `{Codecs.Registry} (a b : HTTPResponse) (query_params : gmap string value)
  : result (gmap string value) :=
  (let query_params := setdefault "a_url" (VStr (request_url a)) query_params in
   let query_params := setdefault "b_url" (VStr (request_url b)) query_params in
   let query_params := setdefault "a_body" (VBytes (body a)) query_params in
   let query_params := setdefault "b_body" (VBytes (body b)) query_params in
   try enc_a <- _extract_encoding (headers a) ;;
   let a_encoding := or_default enc_a "UTF-8" in
   try enc_b <- _extract_encoding (headers a) ;;
   let b_encoding := or_default enc_b "UTF-8" in
   try a_text <- Codecs.decode_ignore (body a) a_encoding ;;
   let query_params := setdefault "a_text" (VStr a_text) query_params in
   try b_text <- Codecs.decode_ignore (body b) b_encoding ;;
   let query_params := setdefault "b_text" (VStr b_text) query_params in
   Ok query_params)%result.

(** Lines 109-131: everything [caller] does before calling [func]. *)
Definition caller_kwargs `{Codecs.Registry} (func : differ) (a b : HTTPResponse)
    (query_params : gmap string value) : result (gmap string value) :=
  (try _ <- check_keywords query_params ;;
   try query_params <- supplement a b query_params ;;
   bind_parameters (fn_name func) (fn_params func) query_params ∅)%result.

(** Calling [func] with [kwargs] as keyword arguments: Python refuses a keyword the function does not declare
    and a required parameter left without a value, fills in the defaults,
    and runs the body. *)
Fixpoint fill_defaults (params : list (string * option value))
    (kwargs : gmap string value) : result (gmap string value) :=
  match params with
  | [] => Ok ∅
  | (name, default) :: rest =>
      match kwargs !! name, default with
      | Some v, _ | None, Some v =>
          rbind (fill_defaults rest kwargs) (fun args => Ok (<[name := v]> args))
      | None, None =>
          Raise (TypeError ("missing a required argument: '" +:+ name +:+ "'"))
      end
  end.

Definition call (w : ambient) (func : differ) (kwargs : gmap string value)
  : result value :=
  if bool_decide (map_Forall (fun k _ => k ∈ (fn_params func).*1) kwargs)
  then rbind (fill_defaults (fn_params func) kwargs) (fn_body func w)
  else Raise (TypeError "got an unexpected keyword argument").

Definition caller `{Codecs.Registry} (w : ambient) (func : differ) (a b : HTTPResponse)
    (query_params : gmap string value) : io value :=
  (do kwargs <- lift (caller_kwargs func a b query_params) ;;
   run emit (Invoke (fn_name func) kwargs) ;;
   lift (call w func kwargs))%io.

(** ** DiffHandler.get *)

Inductive Response : Type :=
| Written (chunk : list (string * value))
| SendError (status : Z) (reason : option string)
| Uncaught (e : exn).

(** An exception that leaves the handler is answered by Tornado with the
    status of the exception when it is a [tornado.web.HTTPError], and with
    500 otherwise. *)
Definition status_code (r : Response) : Z :=
  match r with
  | Written _ => 200
  | SendError status _ => status
  | Uncaught (HTTPError status) => status
  | Uncaught _ => 500
  end.

(** The JSON object of the response, when it has one. *)
Definition json_object (r : Response) : option (list (string * value)) :=
  match r with
  | Written chunk => Some chunk
  | _ => None
  end.

(** [self.request.arguments]: every value sent under a name, in order. *)
Record Request : Type := mkRequest {
  arguments : gmap string (list bytes)
}.

(** What lies outside the handler: what [client.fetch] gives for a URL, and
    the state a differ's body may look at. *)
Record World : Type := mkWorld {
  client_fetch : string -> result HTTPResponse;
  state : ambient
}.

(** [v[-1].decode()] *)
Definition decode_last (v : list bytes) : result string :=
  match List.last (map Some v) None with
  | None => Raise IndexError
  | Some bs => Codecs.utf8_decode_strict bs
  end.

Fixpoint decode_items (items : list (string * list bytes))
  : result (list (string * string)) :=
  match items with
  | [] => Ok []
  | (k, v) :: rest =>
      (try s <- decode_last v ;;
       try rest' <- decode_items rest ;;
       Ok ((k, s) :: rest'))%result
  end.

(** [{k: v[-1].decode() for k, v in self.request.arguments.items()}].  When
    several values fail to decode, the exception is that of the first in the
    order of [map_to_list]; each of them ends the request the same way. *)
Definition decode_arguments (args : gmap string (list bytes))
  : result (gmap string string) :=
  rbind (decode_items (map_to_list args)) (fun items => Ok (list_to_map items)).

(** [d.pop(k)] *)
Definition pop {V} (k : string) (d : gmap string V) : result (V * gmap string V) :=
  match d !! k with
  | Some v => Ok (v, delete k d)
  | None => Raise (KeyError k)
  end.

(** [yield [client.fetch(a), client.fetch(b)]]: both requests are issued,
    then both are awaited. *)
Definition fetch_both (w : World) (a b : string) : io (HTTPResponse * HTTPResponse) :=
  (run emit (Fetch a) ;;
   run emit (Fetch b) ;;
   do res_a <- lift (client_fetch w a) ;;
   do res_b <- lift (client_fetch w b) ;;
   ret (res_a, res_b))%io.

(** How the validation loop ends: with the parameters that remain, or at
    the [send_error(500)] of a mismatch. *)
Inductive validation : Type :=
| Passed (query_params : gmap string string)
| Mismatch.

(** Lines 55-66.  The loop variable [query_param] is bound and not used: the
    key popped is the literal ['a_hash'] on every iteration. *)
Fixpoint validate (pairs : list (string * HTTPResponse))
    (query_params : gmap string string) : validation :=
  match pairs with
  | [] => Passed query_params
  | (query_param, res) :: rest =>
      match pop "a_hash" query_params with
      | Raise _ => validate rest query_params
      | Ok (expected_hash, query_params) =>
          let actual_hash := hexdigest (sha256 (body res)) in
          if negb (String.eqb actual_hash expected_hash)
          then Mismatch
          else validate rest query_params
      end
  end.

(** [self.write(chunk)] with a [dict]: the chunk is JSON-encoded. *)
Definition write (chunk : list (string * value)) : io Response :=
  if forallb (fun kv => json_serializable (snd kv)) chunk
  then ret (Written chunk)
  else raise (TypeError "Object is not JSON serializable").

Definition respond (m : io Response) : list event * Response :=
  match m with
  | (t, Ok r) => (t, r)
  | (t, Raise e) => (t, Uncaught e)
  end.

(** [get] returns the effects of the request in order and the response it
    ends with, for the codec registry of the interpreter it runs on.  [send_error] followed by [return] ends the request with that
    status; an exception that nobody catches ends it as [Uncaught].  The
    executor is transparent: the value, or the exception, of [caller] comes
    back through the [yield]. *)
Definition get `{Codecs.Registry} (differs : gmap string differ) (w : World) (differ_name : string)
    (request : Request) : list event * Response :=
  match differs !! differ_name with
  | None => ([], SendError 404 None)
  | Some func =>
      respond
        (do query_params <- lift (decode_arguments (arguments request)) ;;
         do (a, query_params) <- lift (pop "a" query_params) ;;
         do (b, query_params) <- lift (pop "b" query_params) ;;
         do (res_a, res_b) <- fetch_both w a b ;;
         match validate [("a_hash", res_a); ("b_hash", res_b)] query_params with
         | Mismatch =>
             ret (SendError 500 (Some "Fetched content does not match hash."))
         | Passed query_params =>
             do res <- caller (state w) func res_a res_b (VStr <$> query_params) ;;
             write [("diff", res)]
         end)%io
  end.

(** The special items on their own: what [caller] derives from [a] and [b]
    when the request brings no parameter at all. *)
Definition special_items `{Codecs.Registry} (a b : HTTPResponse) : result (gmap string value) :=
  supplement a b ∅.

Definition declares (func : differ) (name : string) : Prop :=
  name ∈ (fn_params func).*1.

(** ** Sample differs, resources and requests

    [compare_length] is the differ of that name as [tests/test_differs.py]
    exercises it: four bytes against three give -1. *)

Definition compare_length : differ :=
  mkDiffer "compare_length" [("a_body", None); ("b_body", None)]
    (fun _ args =>
       match args !! "a_body", args !! "b_body" with
       | Some (VBytes a_body), Some (VBytes b_body) =>
           Ok (VInt (Z.of_nat (length b_body) - Z.of_nat (length a_body)))
       | _, _ => Raise (TypeError "object has no len()")
       end).

(** [def echo(<name>): return <name>] *)
Definition echo (name : string) : differ :=
  mkDiffer "echo" [(name, None)]
    (fun _ args =>
       match args !! name with
       | Some v => Ok v
       | None => Raise (DifferError "unbound")
       end).

(** [def needs_two(y, x): return None] *)
Definition needs_two : differ :=
  mkDiffer "needs_two" [("y", None); ("x", None)] (fun _ _ => Ok VNone).

Definition page (url : string) (content_type : option string) (content : bytes)
  : HTTPResponse :=
  mkResponse url content
    (match content_type with
     | Some c => {[ "Content-Type" := c ]}
     | None => ∅
     end).

(** The registry of an interpreter with no text encoding beyond the three
    written out in [Codecs]; the samples below run on it. *)
#[global] Instance bare_codecs : Codecs.Registry := fun _ => None.

Definition page_a : HTTPResponse :=
  page "http://a" (Some "text/html; charset=latin-1") (bytes_of_str "asdf").
Definition page_b : HTTPResponse :=
  page "http://b" (Some "text/html") [xe9; x61; x62].
Definition page_bare : HTTPResponse :=
  page "http://bare" None (bytes_of_str "asdf").

(** The special items of [page_a] and [page_b], as [caller] computes them. *)
Definition page_items : gmap string value :=
  {[ "a_url" := VStr "http://a"; "b_url" := VStr "http://b";
     "a_body" := VBytes (bytes_of_str "asdf"); "b_body" := VBytes [xe9; x61; x62];
     "a_text" := VStr "asdf";
     "b_text" := VStr (str_of_bytes [xc3; xa9; x61; x62]) ]}.

Definition web : World :=
  mkWorld
    (fun url =>
       if String.eqb url "http://a" then Ok page_a
       else if String.eqb url "http://b" then Ok page_b
       else if String.eqb url "http://bare" then Ok page_bare
       else Raise (FetchError url))
    0%N.

Definition registry : gmap string differ :=
  {[ "compare_length" := compare_length;
     "a_text" := echo "a_text";
     "b_text" := echo "b_text";
     "b_hash" := echo "b_hash";
     "needs_two" := needs_two ]}.

Definition request_of (query : list (string * string)) : Request :=
  mkRequest (list_to_map (map (fun kv => (fst kv, [bytes_of_str (snd kv)])) query)).

(** [def within(a_body, b_body, tolerance=0): ...]: a differ with a default. *)
Definition within : differ :=
  mkDiffer "within"
    [("a_body", None); ("b_body", None); ("tolerance", Some (VInt 0))]
    (fun _ args =>
       match args !! "a_body", args !! "b_body", args !! "tolerance" with
       | Some (VBytes a_body), Some (VBytes b_body), Some (VInt tolerance) =>
           Ok (VBool (Z.abs (Z.of_nat (length a_body) - Z.of_nat (length b_body))
                      <=? tolerance)%Z)
       | _, _, _ => Raise (TypeError "unsupported operand")
       end).

#[global] Instance declares_dec func name : Decision (declares func name) :=
  decide (name ∈ (fn_params func).*1).

(** ** load_config and make_app

    The configuration is the dictionary read from the JSON file, as the list
    of its items in order; each entry names a module and a function in it.
    [modules] stands for what [import_module] can find: for each module
    name, the differs it defines under their names. *)

Inductive config_error : Type :=
| ValueError (name : string)
| ModuleNotFoundError (modname : string)
| AttributeError (modname funcname : string).

Definition import_module (modules : gmap string (gmap string differ)) (modname : string)
  : config_error + gmap string differ :=
  match modules !! modname with
  | Some mod_ => inr mod_
  | None => inl (ModuleNotFoundError modname)
  end.

Definition getattr (modname : string) (mod_ : gmap string differ) (funcname : string)
  : config_error + differ :=
  match mod_ !! funcname with
  | Some func => inr func
  | None => inl (AttributeError modname funcname)
  end.

(** The body of the loop for one entry: [modname, funcname = spec], then the
    import and the attribute lookup. *)
Definition resolve (modules : gmap string (gmap string differ)) (name : string)
    (spec : list string) : config_error + differ :=
  match spec with
  | [modname; funcname] =>
      match import_module modules modname with
      | inl e => inl e
      | inr mod_ => getattr modname mod_ funcname
      end
  | _ => inl (ValueError name)
  end.

Fixpoint load_items (modules : gmap string (gmap string differ))
    (items : list (string * list string)) (d : gmap string differ)
  : config_error + gmap string differ :=
  match items with
  | [] => inr d
  | (name, spec) :: rest =>
      match resolve modules name spec with
      | inl e => inl e
      | inr func => load_items modules rest (<[name := func]> d)
      end
  end.

Definition load_config (modules : gmap string (gmap string differ))
    (config : list (string * list string)) : config_error + gmap string differ :=
  load_items modules config ∅.

(** The one route of the application, [/([A-Za-z0-9_]+)], matched against
    the whole path of the request. *)
Definition is_word_char (c : ascii) : bool :=
  let n := N_of_ascii c in
  ((48 <=? n) && (n <=? 57) || (65 <=? n) && (n <=? 90) || (97 <=? n) && (n <=? 122)
   || (n =? 95))%N.

Fixpoint all_chars (p : ascii -> bool) (s : string) : bool :=
  match s with
  | EmptyString => true
  | String c s' => p c && all_chars p s'
  end.

Definition route (path : string) : option string :=
  match path with
  | String "/" (String c rest) =>
      if all_chars is_word_char (String c rest) then Some (String c rest) else None
  | _ => None
  end.

(** [make_app]: the handler class bound to the loaded differs, behind the
    route.  A path that the route does not match is answered 404 by the
    application itself. *)
Record Application : Type := mkApplication {
  differs : gmap string differ
}.

Definition make_app (modules : gmap string (gmap string differ))
    (config : list (string * list string)) : config_error + Application :=
  match load_config modules config with
  | inl e => inl e
  | inr d => inr (mkApplication d)
  end.

Definition handle_get `{Codecs.Registry} (app : Application) (w : World) (path : string)
    (request : Request) : list event * Response :=
  match route path with
  | Some differ_name => get (differs app) w differ_name request
  | None => ([], SendError 404 None)
  end.

(** A module of differs and a configuration over it. *)
Definition differs_module : gmap string (gmap string differ) :=
  {[ "web_monitoring.differs" :=
       {[ "compare_length" := compare_length; "within" := within ]} ]}.

Definition sample_config : list (string * list string) :=
  [("length", ["web_monitoring.differs"; "compare_length"]);
   ("within", ["web_monitoring.differs"; "within"])].

(** * Properties *)

(** ** The runtime model agrees with Python on known values *)

Example sha256_constants :
  firstn 2 SHA256.K = [0x428a2f98; 0x71374491]%N
  /\ List.last SHA256.K 0%N = 0xc67178f2%N
  /\ firstn 2 SHA256.H0 = [0x6a09e667; 0xbb67ae85]%N
  /\ length SHA256.K = 64%nat.
Proof. repeat split; vm_compute; reflexivity. Qed.

Example sha256_empty :
  hexdigest (sha256 []) = "e3b0c44298fc1c149afbf4c8996fb92427ae41e4649b934ca495991b7852b855".
Proof. vm_compute. reflexivity. Qed.

Example sha256_abc :
  hexdigest (sha256 (bytes_of_str "abc"))
  = "ba7816bf8f01cfea414140de5dae2223b00361a396177a9cb410ff61f20015ad".
Proof. vm_compute. reflexivity. Qed.

Example sha256_two_blocks :
  hexdigest (sha256 (bytes_of_str "abcdbcdecdefdefgefghfghighijhijkijkljklmklmnlmnomnopnopq"))
  = "248d6a61d20638b8e5c026930c3e6039a33ce45964ff2167f6ecedd419db06c1".
Proof. vm_compute. reflexivity. Qed.

Example utf8_well_formed :
  Codecs.utf8_decode_strict [x68; xc3; xa9; x20; xe2; x82; xac]
  = Ok (str_of_bytes [x68; xc3; xa9; x20; xe2; x82; xac]).
Proof. vm_compute. reflexivity. Qed.

Example utf8_ill_formed_strict :
  Codecs.utf8_decode_strict [x61; xe9; x62] = Raise UnicodeDecodeError.
Proof. vm_compute. reflexivity. Qed.

Example utf8_ill_formed_dropped :
  Codecs.utf8_decode_ignore [x61; xe9; x62; xc3; xa9; xe2; x82; x63; xf0; x9f]
  = str_of_bytes [x61; x62; xc3; xa9; x63].
Proof. vm_compute. reflexivity. Qed.

Example latin1_e_acute {codecs : Codecs.Registry} :
  Codecs.decode_ignore [xe9] "ISO-8859-1" = Ok (str_of_bytes [xc3; xa9]).
Proof. vm_compute. reflexivity. Qed.

(** An encoding other than the three written out is decoded by the
    interpreter's registry, asked under the normalised name. *)
Lemma decode_ignore_registered {codecs : Codecs.Registry} content name decode :
  Codecs.builtin name = None ->
  Codecs.other_codecs (Codecs.normalize name) = Some decode ->
  Codecs.decode_ignore content name
  = match decode content with
    | Some text => Ok text
    | None => Raise UnicodeError
    end.
Proof.
  intros Hb Hr. unfold Codecs.decode_ignore, Codecs.lookup. by rewrite Hb, Hr.
Qed.

Example windows_1252_is_left_to_the_registry :
  Codecs.builtin "windows-1252" = None
  /\ Codecs.normalize "windows-1252" = "windows_1252".
Proof. split; vm_compute; reflexivity. Qed.

Example codec_names :
  map Codecs.builtin ["UTF-8"; "utf8"; " Latin-1"; "us-ascii"; "utf-8; boundary=x"; "bogus"]
  = [Some Codecs.UTF8; Some Codecs.UTF8; Some Codecs.Latin1; Some Codecs.ASCII; None; None].
Proof. vm_compute. reflexivity. Qed.

Example split_charset_twice :
  split "charset=" "text/html; charset=utf-8; charset=latin-1"
  = ["text/html; "; "utf-8; "; "latin-1"].
Proof. vm_compute. reflexivity. Qed.

Example split_charset_empty :
  split "charset=" "text/html; charset=" = ["text/html; "; ""].
Proof. vm_compute. reflexivity. Qed.

Example split_left_to_right : split "aa" "aaa" = [""; "a"].
Proof. vm_compute. reflexivity. Qed.

Example extract_encoding_values :
  _extract_encoding {[ "Content-Type" := "text/html; charset=ISO-8859-1" ]}
  = Ok (Some "ISO-8859-1")
  /\ _extract_encoding {[ "Content-Type" := "text/html" ]} = Ok None
  /\ _extract_encoding {[ "Content-Type" := "text/html; charset=" ]} = Ok (Some "")
  /\ or_default (Some "") "UTF-8" = "UTF-8"
  /\ _extract_encoding ∅ = Raise (KeyError "Content-Type").
Proof. repeat split; vm_compute; reflexivity. Qed.

(** The two differs of [tests/test_differs.py] that work on bodies. *)
Example compare_length_scenario {codecs : Codecs.Registry} :
  get registry web "compare_length" (request_of [("a", "http://a"); ("b", "http://b")])
  = ([Fetch "http://a"; Fetch "http://b";
      Invoke "compare_length"
        {[ "a_body" := VBytes (body page_a); "b_body" := VBytes (body page_b) ]}],
     Written [("diff", VInt (-1))]).
Proof. vm_compute. reflexivity. Qed.

(** ** Dictionaries *)

Lemma setdefault_union {V} (k : string) (v : V) (d : gmap string V) :
  setdefault k v d = d ∪ {[ k := v ]}.
Proof.
  unfold setdefault. apply map_eq. intros i.
  rewrite lookup_union.
  destruct (d !! k) eqn:Hk; destruct (decide (i = k)) as [->|Hne].
  - rewrite Hk, lookup_singleton_eq. reflexivity.
  - rewrite lookup_singleton_ne by congruence. destruct (d !! i); reflexivity.
  - rewrite lookup_insert_eq, Hk, lookup_singleton_eq. reflexivity.
  - rewrite lookup_insert_ne, lookup_singleton_ne by congruence.
    destruct (d !! i); reflexivity.
Qed.

(** The request's parameters win over the special items, key by key. *)
Lemma supplement_union {codecs : Codecs.Registry} (a b : HTTPResponse) (query_params : gmap string value) :
  supplement a b query_params
  = rbind (special_items a b) (fun items => Ok (query_params ∪ items)).
Proof.
  unfold special_items, supplement.
  destruct (_extract_encoding (headers a)) as [enc|e]; [|reflexivity]. cbn [rbind].
  destruct (Codecs.decode_ignore (body a) _) as [a_text|e]; [|reflexivity]. cbn [rbind].
  destruct (Codecs.decode_ignore (body b) _) as [b_text|e]; [|reflexivity]. cbn [rbind].
  rewrite !setdefault_union. f_equal.
  rewrite !(left_id_L ∅ (∪)). rewrite !(assoc_L (∪)). reflexivity.
Qed.

(** ** The binding loop *)

Section BindParameters.

Variable fname : string.
Variable query_params : gmap string value.

(** What ends up in [kwargs]: for a declared name the value found in the
    query parameters, and whatever was there before otherwise. *)
Lemma bind_parameters_lookup params kwargs bound name :
  bind_parameters fname params query_params kwargs = Ok bound ->
  bound !! name =
    match query_params !! name with
    | Some v => if bool_decide (name ∈ params.*1) then Some v else kwargs !! name
    | None => kwargs !! name
    end.
Proof.
  revert kwargs. induction params as [|[n d] rest IH]; intros kwargs Hb; cbn in Hb.
  - injection Hb as <-. destruct (query_params !! name); reflexivity.
  - destruct (query_params !! n) as [v|] eqn:Hn.
    + rewrite (IH _ Hb). cbn [fmap list_fmap fst].
      destruct (decide (name = n)) as [->|Hne].
      * rewrite Hn, lookup_insert_eq.
        rewrite (bool_decide_eq_true_2 (n ∈ n :: rest.*1)) by left.
        destruct (bool_decide (n ∈ rest.*1)); reflexivity.
      * rewrite lookup_insert_ne by congruence.
        destruct (query_params !! name); [|reflexivity].
        rewrite (bool_decide_ext (name ∈ n :: rest.*1) (name ∈ rest.*1))
        by (rewrite elem_of_cons; intuition congruence).
        reflexivity.
    + destruct d as [d|]; [|discriminate].
      rewrite (IH _ Hb). cbn [fmap list_fmap fst].
      destruct (query_params !! name) eqn:Hname; [|reflexivity].
      assert (name <> n) by congruence.
      rewrite (bool_decide_ext (name ∈ n :: rest.*1) (name ∈ rest.*1))
        by (rewrite elem_of_cons; intuition congruence).
      reflexivity.
Qed.

(** Binding succeeds exactly when every parameter without a default finds
    a value. *)
Lemma bind_parameters_succeeds params kwargs :
  (forall n, (n, None) ∈ params -> is_Some (query_params !! n)) ->
  exists bound, bind_parameters fname params query_params kwargs = Ok bound.
Proof.
  revert kwargs. induction params as [|[n d] rest IH]; intros kwargs Hall; cbn.
  - eauto.
  - destruct (query_params !! n) as [v|] eqn:Hn.
    + apply IH. intros m Hm. apply Hall. by right.
    + destruct d as [d|].
      * apply IH. intros m Hm. apply Hall. by right.
      * destruct (Hall n) as [v Hv]; [by left|]. congruence.
Qed.

(** The error names the first parameter, in declaration order, that has
    neither a value nor a default. *)
Lemma bind_parameters_first_missing pre x post kwargs :
  (forall n, (n, None) ∈ pre -> is_Some (query_params !! n)) ->
  query_params !! x = None ->
  bind_parameters fname (pre ++ (x, None) :: post) query_params kwargs
  = Raise (KeyError (missing_message fname x)).
Proof.
  revert kwargs. induction pre as [|[n d] pre IH]; intros kwargs Hpre Hx; cbn.
  - rewrite Hx. reflexivity.
  - destruct (query_params !! n) as [v|] eqn:Hn.
    + apply IH; [|done]. intros m Hm. apply Hpre. by right.
    + destruct d as [d|].
      * apply IH; [|done]. intros m Hm. apply Hpre. by right.
      * destruct (Hpre n) as [v Hv]; [by left|]. congruence.
Qed.

Lemma bind_parameters_declared params bound :
  bind_parameters fname params query_params ∅ = Ok bound ->
  map_Forall (fun k _ => k ∈ params.*1) bound.
Proof.
  intros Hb k v Hk.
  rewrite (bind_parameters_lookup _ _ _ _ Hb) in Hk.
  destruct (query_params !! k); [|by rewrite lookup_empty in Hk].
  case_bool_decide; [done|by rewrite lookup_empty in Hk].
Qed.

Lemma bind_parameters_needs params kwargs bound n :
  bind_parameters fname params query_params kwargs = Ok bound ->
  (n, None) ∈ params -> is_Some (query_params !! n).
Proof.
  revert kwargs. induction params as [|[m d] rest IH]; intros kwargs Hb Hin.
  - by apply elem_of_nil in Hin.
  - cbn in Hb. apply elem_of_cons in Hin as [Heq|Hin].
    + injection Heq as <- <-. destruct (query_params !! n); [eauto|discriminate].
    + destruct (query_params !! m); [by eapply IH|].
      destruct d; [by eapply IH|discriminate].
Qed.

End BindParameters.

(** ** Calling the differ with the bound arguments *)

Lemma fill_defaults_lookup params (kwargs : gmap string value) :
  (forall n, (n, None) ∈ params -> is_Some (kwargs !! n)) ->
  exists args,
    fill_defaults params kwargs = Ok args /\
    forall n v, n ∈ params.*1 -> kwargs !! n = Some v -> args !! n = Some v.
Proof.
  induction params as [|[m d] rest IH]; intros Hreq.
  - exists ∅. split; [reflexivity|]. intros n v Hn. by apply elem_of_nil in Hn.
  - destruct IH as (args & Hargs & Hlook).
    { intros n Hn. apply Hreq. by right. }
    cbn [fill_defaults]. rewrite Hargs.
    destruct (kwargs !! m) as [v'|] eqn:Hm.
    + exists (<[m := v']> args). split; [reflexivity|].
      intros n v Hn Hv. destruct (decide (n = m)) as [->|Hne].
      * rewrite lookup_insert_eq. congruence.
      * rewrite lookup_insert_ne by congruence. apply Hlook; [|done].
        cbn in Hn. apply elem_of_cons in Hn as [?|?]; [congruence|done].
    + destruct d as [dv|].
      * exists (<[m := dv]> args). split; [reflexivity|].
        intros n v Hn Hv. destruct (decide (n = m)) as [->|Hne]; [congruence|].
        rewrite lookup_insert_ne by congruence. apply Hlook; [|done].
        cbn in Hn. apply elem_of_cons in Hn as [?|?]; [congruence|done].
      * destruct (Hreq m) as [v Hv]; [by left|]. congruence.
Qed.

(** After a successful binding the call itself cannot be refused: the body
    runs, on arguments that agree with [kwargs]. *)
Lemma call_bound (w : ambient) (func : differ) (query_params kwargs : gmap string value) :
  bind_parameters (fn_name func) (fn_params func) query_params ∅ = Ok kwargs ->
  exists args,
    call w func kwargs = fn_body func w args /\
    forall n v, kwargs !! n = Some v -> args !! n = Some v.
Proof.
  intros Hb.
  pose proof (bind_parameters_declared _ _ _ _ Hb) as Hdecl.
  destruct (fill_defaults_lookup (fn_params func) kwargs) as (args & Hargs & Hlook).
  { intros n Hn.
    destruct (bind_parameters_needs _ _ _ _ _ _ Hb Hn) as [v Hv].
    exists v. rewrite (bind_parameters_lookup _ _ _ _ _ n Hb), Hv.
    rewrite bool_decide_eq_true_2; [reflexivity|].
    apply list_elem_of_fmap. by exists (n, None). }
  exists args. split.
  - unfold call. rewrite bool_decide_eq_true_2 by exact Hdecl.
    rewrite Hargs. reflexivity.
  - intros n v Hv. apply Hlook; [|done]. exact (Hdecl n v Hv).
Qed.

(** ** The handler, step by step *)

Arguments sha256 : simpl never.
Arguments hexdigest : simpl never.

(** Once the differ is found, the request decoded and both resources
    fetched, the rest of [get] is validation, [caller] and [write]. *)
Lemma get_fetched {codecs : Codecs.Registry} differs w differ_name request func qp a b res_a res_b :
  differs !! differ_name = Some func ->
  decode_arguments (arguments request) = Ok qp ->
  qp !! "a" = Some a ->
  qp !! "b" = Some b ->
  client_fetch w a = Ok res_a ->
  client_fetch w b = Ok res_b ->
  get differs w differ_name request =
    match validate [("a_hash", res_a); ("b_hash", res_b)] (delete "b" (delete "a" qp)) with
    | Mismatch =>
        ([Fetch a; Fetch b], SendError 500 (Some "Fetched content does not match hash."))
    | Passed qp' =>
        match caller_kwargs func res_a res_b (VStr <$> qp') with
        | Raise e => ([Fetch a; Fetch b], Uncaught e)
        | Ok kwargs =>
            ([Fetch a; Fetch b; Invoke (fn_name func) kwargs],
             match call (state w) func kwargs with
             | Raise e => Uncaught e
             | Ok res =>
                 if json_serializable res then Written [("diff", res)]
                 else Uncaught (TypeError "Object is not JSON serializable")
             end)
        end
    end.
Proof.
  intros Hf Hq Ha Hb Hra Hrb. unfold get. rewrite Hf, Hq.
  cbn [lift bind]. unfold pop at 1. rewrite Ha. cbn [lift bind].
  unfold pop at 1. rewrite lookup_delete_ne, Hb by done.
  unfold fetch_both. cbn [lift bind emit]. rewrite Hra, Hrb. cbn [lift bind ret app].
  destruct (validate _ _) as [qp'|]; [|reflexivity].
  unfold caller. destruct (caller_kwargs _ _ _ _) as [kwargs|e]; [|reflexivity].
  cbn [lift bind emit app].
  destruct (call _ _ _) as [res|e]; [|reflexivity].
  unfold write. cbn [forallb snd]. rewrite andb_true_r.
  destruct (json_serializable res); reflexivity.
Qed.

(** With no [a_hash] among the parameters the loop finds nothing to check,
    whatever [b_hash] says. *)
Lemma validate_without_a_hash res_a res_b (qp : gmap string string) :
  qp !! "a_hash" = None ->
  validate [("a_hash", res_a); ("b_hash", res_b)] qp = Passed qp.
Proof. intros H. cbn. unfold pop. rewrite H. reflexivity. Qed.

Lemma validate_with_a_hash res_a res_b (qp : gmap string string) supplied :
  qp !! "a_hash" = Some supplied ->
  validate [("a_hash", res_a); ("b_hash", res_b)] qp =
    if String.eqb (hexdigest (sha256 (body res_a))) supplied
    then Passed (delete "a_hash" qp)
    else Mismatch.
Proof.
  intros H. cbn. unfold pop. rewrite H.
  destruct (String.eqb _ supplied); cbn; [|reflexivity].
  rewrite lookup_delete_eq. reflexivity.
Qed.

Lemma validate_passed res_a res_b (qp qp' : gmap string string) :
  validate [("a_hash", res_a); ("b_hash", res_b)] qp = Passed qp' ->
  qp' = delete "a_hash" qp.
Proof.
  destruct (qp !! "a_hash") as [h|] eqn:Hh.
  - rewrite (validate_with_a_hash _ _ _ _ Hh).
    destruct (String.eqb _ h); [congruence|discriminate].
  - rewrite (validate_without_a_hash _ _ _ Hh). intros [= <-].
    symmetry. by apply delete_id.
Qed.

(** ** Registry lookup *)

(** C7.  A request that names a differ absent from the registry is answered
    with [send_error(404)] and nothing else happens: the trace of effects is
    empty, so no URL is fetched. *)
Theorem get_unregistered {codecs : Codecs.Registry} differs w differ_name request :
  differs !! differ_name = None ->
  get differs w differ_name request = ([], SendError 404 None)
  /\ status_code (snd (get differs w differ_name request)) = 404%Z
  /\ forall url, ~ In (Fetch url) (fst (get differs w differ_name request)).
Proof.
  intros H. unfold get. rewrite H. repeat split. intros url [].
Qed.

Lemma get_unregistered_witness :
  registry !! "visual_diff" = None
  /\ (get registry web "visual_diff" (request_of [("a", "http://a"); ("b", "http://b")])
      = ([], SendError 404 None)
      /\ status_code
           (snd (get registry web "visual_diff"
                   (request_of [("a", "http://a"); ("b", "http://b")]))) = 404%Z
      /\ forall url,
           ~ In (Fetch url)
               (fst (get registry web "visual_diff"
                       (request_of [("a", "http://a"); ("b", "http://b")])))).
Proof.
  split; [vm_compute; reflexivity|].
  apply (get_unregistered registry web "visual_diff"). vm_compute. reflexivity.
Defined.

(** Any fetch in the trace comes after a successful lookup. *)
Lemma fetch_after_lookup {codecs : Codecs.Registry} differs w differ_name request url :
  In (Fetch url) (fst (get differs w differ_name request)) ->
  is_Some (differs !! differ_name).
Proof.
  unfold get. destruct (differs !! differ_name); [eauto|]. intros [].
Qed.

(** ** Integrity validation of [b] *)

(** C1.  A request whose [b_hash] is not the digest of [b]'s body is
    answered as if no hash had been sent: the loop pops ['a_hash'] on both
    iterations, the differ is invoked and the diff is written. *)
Theorem get_b_hash_unchecked {codecs : Codecs.Registry} :
  hexdigest (sha256 (body page_b)) <> "00"
  /\ get registry web "compare_length"
       (request_of [("a", "http://a"); ("b", "http://b"); ("b_hash", "00")])
     = ([Fetch "http://a"; Fetch "http://b";
         Invoke "compare_length"
           {[ "a_body" := VBytes (body page_a); "b_body" := VBytes (body page_b) ]}],
        Written [("diff", VInt (-1))]).
Proof. split; [vm_compute; discriminate|vm_compute; reflexivity]. Qed.

(** ** Text decoding *)

(** C2.  [b_encoding] is read from [a]'s headers.  With [a] declaring
    latin-1 and [b] declaring nothing, [b_text] is [b]'s body decoded as
    latin-1, not as UTF-8. *)
Theorem b_text_decoded_with_a_encoding {codecs : Codecs.Registry} :
  _extract_encoding (headers page_a) = Ok (Some "latin-1")
  /\ _extract_encoding (headers page_b) = Ok None
  /\ Codecs.decode_ignore (body page_b) "UTF-8" = Ok "ab"
  /\ caller_kwargs (echo "b_text") page_a page_b ∅
     = Ok {[ "b_text" := VStr (str_of_bytes [xc3; xa9; x61; x62]) ]}.
Proof. repeat split; vm_compute; reflexivity. Qed.

(** The headers of [b] play no part in what [caller] computes. *)
Lemma supplement_ignores_b_headers {codecs : Codecs.Registry} a url content h1 h2 query_params :
  supplement a (mkResponse url content h1) query_params
  = supplement a (mkResponse url content h2) query_params.
Proof. reflexivity. Qed.

(** C5.  A response [a] without a Content-Type header makes
    [_extract_encoding] raise [KeyError]; [caller] raises with it and the
    request ends as an uncaught exception instead of a UTF-8 decoding. *)
Theorem caller_raises_without_content_type {codecs : Codecs.Registry} :
  headers page_bare !! "Content-Type" = None
  /\ caller_kwargs (echo "a_text") page_bare page_b ∅ = Raise (KeyError "Content-Type")
  /\ get registry web "a_text" (request_of [("a", "http://bare"); ("b", "http://b")])
     = ([Fetch "http://bare"; Fetch "http://b"], Uncaught (KeyError "Content-Type")).
Proof. repeat split; vm_compute; reflexivity. Qed.

(** Where the header is there and names no charset, [a_text] is the body
    decoded as UTF-8, ill-formed bytes left out, and nothing is raised. *)
Lemma utf8_never_raises {codecs : Codecs.Registry} content :
  Codecs.decode_ignore content "UTF-8" = Ok (Codecs.utf8_decode_ignore content).
Proof. reflexivity. Qed.

Lemma a_text_defaults_to_utf8 {codecs : Codecs.Registry} a b content_type :
  headers a !! "Content-Type" = Some content_type ->
  contains "charset=" content_type = false ->
  exists items,
    special_items a b = Ok items
    /\ items !! "a_text" = Some (VStr (Codecs.utf8_decode_ignore (body a))).
Proof.
  intros Hh Hc. unfold special_items, supplement, _extract_encoding.
  rewrite Hh, Hc. cbn [rbind or_default]. rewrite !utf8_never_raises. cbn [rbind].
  eexists. split; [reflexivity|].
  rewrite !setdefault_union, !(left_id_L ∅ (∪)).
  rewrite lookup_union_l by reflexivity.
  rewrite lookup_union_r by reflexivity. reflexivity.
Qed.

(** ** Responses *)

(** C8, as the code has it.  When the differ is registered, the request
    decodes and carries [a] and [b] but neither hash, both fetches succeed,
    [caller] binds the arguments, and the differ returns a value that JSON
    can encode, the response is the written object with the single key
    [diff] holding that value, status 200.  And for every request at all:
    the response either is such an object, or it carries no JSON object. *)
Theorem get_writes_diff {codecs : Codecs.Registry}
    differs w differ_name request func qp a b res_a res_b kwargs res :
  differs !! differ_name = Some func ->
  decode_arguments (arguments request) = Ok qp ->
  qp !! "a" = Some a ->
  qp !! "b" = Some b ->
  qp !! "a_hash" = None ->
  qp !! "b_hash" = None ->
  client_fetch w a = Ok res_a ->
  client_fetch w b = Ok res_b ->
  caller_kwargs func res_a res_b (VStr <$> delete "b" (delete "a" qp)) = Ok kwargs ->
  call (state w) func kwargs = Ok res ->
  json_serializable res = true ->
  (snd (get differs w differ_name request) = Written [("diff", res)]
   /\ status_code (snd (get differs w differ_name request)) = 200%Z)
  /\ forall differs' w' differ_name' request',
       let response := snd (get differs' w' differ_name' request') in
       (exists res', response = Written [("diff", res')] /\ status_code response = 200%Z)
       \/ json_object response = None.
Proof.
  intros Hf Hq Ha Hb Hah Hbh Hra Hrb Hk Hc Hj. split.
  - rewrite (get_fetched _ _ _ _ _ _ _ _ _ _ Hf Hq Ha Hb Hra Hrb).
    rewrite validate_without_a_hash by (by rewrite !lookup_delete_ne).
    rewrite Hk, Hc, Hj. split; reflexivity.
  - clear. intros differs w differ_name request. cbv zeta.
    unfold get. destruct (differs !! differ_name) as [func|]; [|by right].
    destruct (decode_arguments _) as [qp|e]; [|by right].
    cbn [lift bind]. destruct (pop "a" qp) as [[a qp1]|e]; [|by right].
    cbn [lift bind]. destruct (pop "b" qp1) as [[b qp2]|e]; [|by right].
    unfold fetch_both. cbn [lift bind emit].
    destruct (client_fetch w a) as [res_a|e]; [|by right].
    cbn [lift bind]. destruct (client_fetch w b) as [res_b|e]; [|by right].
    cbn [lift bind ret]. destruct (validate _ _) as [qp'|]; [|by right].
    unfold caller. destruct (caller_kwargs _ _ _ _) as [kwargs|e]; [|by right].
    cbn [lift bind emit]. destruct (call _ _ _) as [res|e]; [|by right].
    unfold write. cbn [forallb snd]. rewrite andb_true_r.
    destruct (json_serializable res); [left; cbn; eauto|by right].
Qed.

Lemma get_writes_diff_witness :
  let request := request_of [("a", "http://a"); ("b", "http://b")] in
  snd (get registry web "compare_length" request) = Written [("diff", VInt (-1))]
  /\ status_code (snd (get registry web "compare_length" request)) = 200%Z.
Proof.
  intros request.
  refine (proj1 (get_writes_diff registry web "compare_length" request compare_length
                   {[ "a" := "http://a"; "b" := "http://b" ]} "http://a" "http://b"
                   page_a page_b
                   {[ "a_body" := VBytes (body page_a); "b_body" := VBytes (body page_b) ]}
                   (VInt (-1)) _ _ _ _ _ _ _ _ _ _ _)); vm_compute; reflexivity.
Defined.

(** C8, as the claim has it, fails: a differ that returns the bytes of
    [a_body] returns normally, every premise of the claim holds, and the
    response is not the written [diff] but an uncaught [TypeError], for
    [write] cannot encode bytes as JSON. *)
Lemma unserializable_result_not_written :
  ~ (forall (codecs : Codecs.Registry)
            differs w differ_name request func qp a b res_a res_b kwargs res,
       differs !! differ_name = Some func ->
       decode_arguments (arguments request) = Ok qp ->
       qp !! "a" = Some a ->
       qp !! "b" = Some b ->
       qp !! "a_hash" = None ->
       qp !! "b_hash" = None ->
       client_fetch w a = Ok res_a ->
       client_fetch w b = Ok res_b ->
       caller_kwargs func res_a res_b (VStr <$> delete "b" (delete "a" qp)) = Ok kwargs ->
       call (state w) func kwargs = Ok res ->
       snd (get differs w differ_name request) = Written [("diff", res)]
       /\ status_code (snd (get differs w differ_name request)) = 200%Z).
Proof.
  intros H.
  destruct (H bare_codecs {[ "a_body" := echo "a_body" ]} web "a_body"
              (request_of [("a", "http://a"); ("b", "http://b")])
              (echo "a_body") {[ "a" := "http://a"; "b" := "http://b" ]}
              "http://a" "http://b" page_a page_b
              {[ "a_body" := VBytes (body page_a) ]} (VBytes (body page_a)))
    as [Hwritten _]; try (vm_compute; reflexivity).
  vm_compute in Hwritten. discriminate.
Qed.

Example get_unserializable_result {codecs : Codecs.Registry} :
  get {[ "a_body" := echo "a_body" ]} web "a_body"
    (request_of [("a", "http://a"); ("b", "http://b")])
  = ([Fetch "http://a"; Fetch "http://b";
      Invoke "echo" {[ "a_body" := VBytes (body page_a) ]}],
     Uncaught (TypeError "Object is not JSON serializable")).
Proof. vm_compute. reflexivity. Qed.

(** ** What remains of the hash parameters *)

(** C10.  Whenever the differ is invoked for a request that carries
    [b_hash], validation has passed with a parameter dictionary from which
    [a_hash] is gone and in which [b_hash] still holds the client's string;
    that dictionary is what [caller] bound from, and a differ declaring a
    parameter [b_hash] is called with that string as its value. *)
Theorem b_hash_forwarded {codecs : Codecs.Registry} differs w differ_name request func qp h fname kwargs :
  differs !! differ_name = Some func ->
  decode_arguments (arguments request) = Ok qp ->
  qp !! "b_hash" = Some h ->
  declares func "b_hash" ->
  In (Invoke fname kwargs) (fst (get differs w differ_name request)) ->
  exists res_a res_b qp' args,
    validate [("a_hash", res_a); ("b_hash", res_b)] (delete "b" (delete "a" qp)) = Passed qp'
    /\ qp' !! "a_hash" = None
    /\ qp' !! "b_hash" = Some h
    /\ caller_kwargs func res_a res_b (VStr <$> qp') = Ok kwargs
    /\ kwargs !! "b_hash" = Some (VStr h)
    /\ call (state w) func kwargs = fn_body func (state w) args
    /\ args !! "b_hash" = Some (VStr h).
Proof.
  intros Hf Hq Hh Hdecl Hin.
  destruct (qp !! "a") as [a|] eqn:Ha; cycle 1.
  { unfold get in Hin. rewrite Hf, Hq in Hin. cbn [lift bind] in Hin.
    unfold pop in Hin at 1. rewrite Ha in Hin. destruct Hin. }
  destruct (qp !! "b") as [b|] eqn:Hb; cycle 1.
  { unfold get in Hin. rewrite Hf, Hq in Hin. cbn [lift bind] in Hin.
    unfold pop in Hin at 1. rewrite Ha in Hin. cbn [lift bind] in Hin.
    unfold pop in Hin at 1. rewrite lookup_delete_ne, Hb in Hin by done. destruct Hin. }
  destruct (client_fetch w a) as [res_a|e] eqn:Hra; cycle 1.
  { unfold get in Hin. rewrite Hf, Hq in Hin. cbn [lift bind] in Hin.
    unfold pop in Hin at 1. rewrite Ha in Hin. cbn [lift bind] in Hin.
    unfold pop in Hin at 1. rewrite lookup_delete_ne, Hb in Hin by done.
    unfold fetch_both in Hin. cbn [lift bind emit] in Hin. rewrite Hra in Hin.
    cbn in Hin. intuition discriminate. }
  destruct (client_fetch w b) as [res_b|e] eqn:Hrb; cycle 1.
  { unfold get in Hin. rewrite Hf, Hq in Hin. cbn [lift bind] in Hin.
    unfold pop in Hin at 1. rewrite Ha in Hin. cbn [lift bind] in Hin.
    unfold pop in Hin at 1. rewrite lookup_delete_ne, Hb in Hin by done.
    unfold fetch_both in Hin. cbn [lift bind emit] in Hin. rewrite Hra, Hrb in Hin.
    cbn in Hin. intuition discriminate. }
  rewrite (get_fetched _ _ _ _ _ _ _ _ _ _ Hf Hq Ha Hb Hra Hrb) in Hin.
  destruct (validate _ _) as [qp'|] eqn:Hv; [|cbn in Hin; intuition discriminate].
  destruct (caller_kwargs _ _ _ _) as [kw|e] eqn:Hk; [|cbn in Hin; intuition discriminate].
  cbn in Hin. destruct Hin as [[=]|[[=]|[[= _ <-]|[]]]].
  pose proof (validate_passed _ _ _ _ Hv) as ->.
  assert (Hbh : delete "a_hash" (delete "b" (delete "a" qp)) !! "b_hash" = Some h).
  { by rewrite !lookup_delete_ne. }
  pose proof Hk as Hbind. unfold caller_kwargs in Hbind.
  destruct (check_keywords _); [|discriminate]. cbn [rbind] in Hbind.
  rewrite supplement_union in Hbind.
  destruct (special_items res_a res_b) as [items|]; [|discriminate].
  cbn [rbind] in Hbind.
  assert (Hkw : kw !! "b_hash" = Some (VStr h)).
  { rewrite (bind_parameters_lookup _ _ _ _ _ "b_hash" Hbind).
    rewrite lookup_union, lookup_fmap, Hbh. cbn.
    rewrite union_Some_l. rewrite bool_decide_eq_true_2 by exact Hdecl. reflexivity. }
  destruct (call_bound (state w) func _ _ Hbind) as (args & Hcall & Hargs).
  exists res_a, res_b, (delete "a_hash" (delete "b" (delete "a" qp))), args.
  repeat split; try done.
  - apply lookup_delete_eq.
  - by apply Hargs.
Qed.

Lemma b_hash_forwarded_witness :
  let request := request_of [("a", "http://a"); ("b", "http://b"); ("b_hash", "00")] in
  In (Invoke "echo" {[ "b_hash" := VStr "00" ]}) (fst (get registry web "b_hash" request))
  /\ exists res_a res_b qp' args,
       validate [("a_hash", res_a); ("b_hash", res_b)]
         (delete "b" (delete "a"
            ({[ "a" := "http://a"; "b" := "http://b"; "b_hash" := "00" ]}
               : gmap string string))) = Passed qp'
       /\ qp' !! "a_hash" = None
       /\ qp' !! "b_hash" = Some "00"
       /\ caller_kwargs (echo "b_hash") res_a res_b (VStr <$> qp')
          = Ok {[ "b_hash" := VStr "00" ]}
       /\ ({[ "b_hash" := VStr "00" ]} : gmap string value) !! "b_hash" = Some (VStr "00")
       /\ call (state web) (echo "b_hash") {[ "b_hash" := VStr "00" ]}
          = fn_body (echo "b_hash") (state web) args
       /\ args !! "b_hash" = Some (VStr "00").
Proof.
  intros request.
  assert (Hin : In (Invoke "echo" {[ "b_hash" := VStr "00" ]})
                  (fst (get registry web "b_hash" request))).
  { vm_compute. right. right. left. reflexivity. }
  split; [exact Hin|].
  apply (b_hash_forwarded registry web "b_hash" request (echo "b_hash")
           {[ "a" := "http://a"; "b" := "http://b"; "b_hash" := "00" ]} "00" "echo"
           {[ "b_hash" := VStr "00" ]}).
  - vm_compute. reflexivity.
  - vm_compute. reflexivity.
  - vm_compute. reflexivity.
  - left.
  - exact Hin.
Defined.

(** ** Request parameters that bear the name of a special item *)

(** The special items are the six documented ones, and only [a_text] and
    [b_text] depend on more than the URL and the body. *)
Lemma special_items_keys {codecs : Codecs.Registry} a b items :
  special_items a b = Ok items ->
  exists a_text b_text,
    items = {[ "a_url" := VStr (request_url a); "b_url" := VStr (request_url b);
               "a_body" := VBytes (body a); "b_body" := VBytes (body b);
               "a_text" := VStr a_text; "b_text" := VStr b_text ]}.
Proof.
  unfold special_items, supplement.
  destruct (_extract_encoding (headers a)) as [enc|e]; [|discriminate]. cbn [rbind].
  destruct (Codecs.decode_ignore (body a) _) as [a_text|e]; [|discriminate]. cbn [rbind].
  destruct (Codecs.decode_ignore (body b) _) as [b_text|e]; [|discriminate]. cbn [rbind].
  intros [= <-]. exists a_text, b_text.
  rewrite !setdefault_union, !(left_id_L ∅ (∪)).
  apply map_eq. intros k.
  repeat (rewrite lookup_union, ?lookup_insert, ?lookup_singleton).
  repeat case_decide; subst; try done.
Qed.

(** What the loop binds for a declared parameter that bears the name of a
    special item: the request parameter of that name when there is one, and
    the special item only when there is none. *)
Lemma special_item_binding {codecs : Codecs.Registry}
    func a b query_params kwargs items name item :
  caller_kwargs func a b query_params = Ok kwargs ->
  special_items a b = Ok items ->
  items !! name = Some item ->
  declares func name ->
  kwargs !! name = Some (default item (query_params !! name)).
Proof.
  intros Hk Hs Hi Hdecl. unfold caller_kwargs in Hk.
  destruct (check_keywords _); [|discriminate]. cbn [rbind] in Hk.
  rewrite supplement_union, Hs in Hk. cbn [rbind] in Hk.
  rewrite (bind_parameters_lookup _ _ _ _ _ name Hk).
  rewrite lookup_union, Hi.
  rewrite bool_decide_eq_true_2 by exact Hdecl.
  destruct (query_params !! name); reflexivity.
Qed.

(** C3.  With [a_text=zzz] in the query, a differ that declares [a_text]
    is called with the string zzz and not with the decoded body of [a],
    which is asdf: [setdefault] leaves the request's value in place, where
    the docstring of [caller] gives the special names the values taken
    from the responses. *)
Theorem caller_request_overrides_special_item {codecs : Codecs.Registry} :
  special_items page_a page_b = Ok page_items
  /\ page_items !! "a_text" = Some (VStr "asdf")
  /\ caller_kwargs (echo "a_text") page_a page_b {[ "a_text" := VStr "zzz" ]}
     = Ok {[ "a_text" := VStr "zzz" ]}
  /\ get registry web "a_text"
       (request_of [("a", "http://a"); ("b", "http://b"); ("a_text", "zzz")])
     = ([Fetch "http://a"; Fetch "http://b";
         Invoke "echo" {[ "a_text" := VStr "zzz" ]}],
        Written [("diff", VStr "zzz")]).
Proof. repeat split; vm_compute; reflexivity. Qed.

(** ** Integrity validation of [a] *)

Lemma hexdigest_cons b d :
  hexdigest (b :: d)
  = String (hex_digit (byte_val b / 16))
      (String (hex_digit (byte_val b mod 16)) (hexdigest d)).
Proof. reflexivity. Qed.

(** A digest is written with the digits 0-9 and a-f. *)
Lemma hexdigest_lower d : map_string lower_ascii (hexdigest d) = hexdigest d.
Proof.
  induction d as [|b d IH]; [reflexivity|].
  rewrite hexdigest_cons. cbn [map_string]. rewrite IH.
  f_equal; [|f_equal]; destruct b; reflexivity.
Qed.

(** C4, as the code has it.  A supplied [a_hash] passes validation exactly
    when it is, character for character, the lowercase hexadecimal digest
    of [a]'s body; a value that contains an uppercase letter is rejected. *)
Theorem validate_a_hash_exact res_a res_b (qp : gmap string string) supplied :
  qp !! "a_hash" = Some supplied ->
  (validate [("a_hash", res_a); ("b_hash", res_b)] qp = Passed (delete "a_hash" qp)
   <-> supplied = hexdigest (sha256 (body res_a)))
  /\ (validate [("a_hash", res_a); ("b_hash", res_b)] qp = Mismatch
      <-> supplied <> hexdigest (sha256 (body res_a)))
  /\ (map_string lower_ascii supplied <> supplied ->
      validate [("a_hash", res_a); ("b_hash", res_b)] qp = Mismatch).
Proof.
  intros Hq. rewrite (validate_with_a_hash _ _ _ _ Hq).
  destruct (String.eqb_spec (hexdigest (sha256 (body res_a))) supplied) as [Heq|Hne].
  - repeat split; try done.
    + intros Hl. subst supplied. by rewrite hexdigest_lower in Hl.
  - repeat split; try done; intros; congruence.
Qed.

Lemma validate_a_hash_exact_witness :
  let supplied := "f0e4c2f76c58916ec258f246851bea091d14d4247a2fc3e18694461b1816e13b" in
  let qp : gmap string string := {[ "a_hash" := supplied ]} in
  validate [("a_hash", page_a); ("b_hash", page_b)] qp = Passed (delete "a_hash" qp)
  <-> supplied = hexdigest (sha256 (body page_a)).
Proof.
  intros supplied qp.
  refine (proj1 (validate_a_hash_exact page_a page_b qp supplied _)).
  vm_compute. reflexivity.
Defined.

(** C4, as the claim has it, fails: the digest of [a]'s body written in
    uppercase is rejected. *)
Lemma uppercase_hash_rejected :
  ~ (forall res_a res_b (qp : gmap string string) supplied,
       qp !! "a_hash" = Some supplied ->
       map_string lower_ascii supplied = hexdigest (sha256 (body res_a)) ->
       validate [("a_hash", res_a); ("b_hash", res_b)] qp <> Mismatch).
Proof.
  intros H.
  apply (H page_a page_b
           {[ "a_hash" := "F0E4C2F76C58916EC258F246851BEA091D14D4247A2FC3E18694461B1816E13B" ]}
           "F0E4C2F76C58916EC258F246851BEA091D14D4247A2FC3E18694461B1816E13B");
    vm_compute; reflexivity.
Qed.

Example get_uppercase_a_hash {codecs : Codecs.Registry} :
  get registry web "compare_length"
    (request_of [("a", "http://a"); ("b", "http://b");
                 ("a_hash", "F0E4C2F76C58916EC258F246851BEA091D14D4247A2FC3E18694461B1816E13B")])
  = ([Fetch "http://a"; Fetch "http://b"],
     SendError 500 (Some "Fetched content does not match hash.")).
Proof. vm_compute. reflexivity. Qed.

(** ** Required parameters *)

Lemma check_keywords_ok (query_params : gmap string value) :
  check_keywords query_params = Ok tt
  <-> forall k, k ∈ own_names -> query_params !! k = None.
Proof.
  unfold check_keywords, own_names. cbn [List.find]. split.
  - intros H k Hk. repeat case_bool_decide; try discriminate.
    repeat (apply elem_of_cons in Hk as [->|Hk]);
      [by apply eq_None_not_Some..|by apply elem_of_nil in Hk].
  - intros H.
    pose proof (H "func" ltac:(by left)) as Hfunc.
    pose proof (H "a" ltac:(by right; left)) as Ha.
    pose proof (H "b" ltac:(by right; right; left)) as Hb.
    rewrite !bool_decide_eq_false_2
      by (rewrite ?Hfunc, ?Ha, ?Hb; by intros [? ?]).
    reflexivity.
Qed.

(** C6, as the code has it.  Let [x] be declared without a default, absent
    from the special items and from the request, the request naming none
    of [func], [a], [b], and the special items being computable.  If every
    parameter declared before [x] without a default has a value, [caller]
    raises the [KeyError] whose message names the differ and [x], and the
    differ is not invoked.  If the parameters declared after [x] are
    provided for as well, then with [x=v] added to the request the differ
    is invoked, with [v] as the value of [x]. *)
Theorem caller_required_parameter {codecs : Codecs.Registry} w func a b query_params items pre x post v :
  fn_params func = pre ++ (x, None) :: post ->
  check_keywords query_params = Ok tt ->
  x ∉ own_names ->
  special_items a b = Ok items ->
  items !! x = None ->
  query_params !! x = None ->
  (forall n, (n, None) ∈ pre -> is_Some ((query_params ∪ items) !! n)) ->
  caller w func a b query_params
  = ([], Raise (KeyError (missing_message (fn_name func) x)))
  /\ ((forall n, (n, None) ∈ post -> is_Some ((query_params ∪ items) !! n)) ->
      exists kwargs args,
        caller w func a b (<[x := v]> query_params)
        = ([Invoke (fn_name func) kwargs], fn_body func w args)
        /\ kwargs !! x = Some v
        /\ args !! x = Some v).
Proof.
  intros Hparams Hck Hown Hs Hix Hqx Hpre. split.
  - unfold caller, caller_kwargs. rewrite Hck. cbn [rbind].
    rewrite supplement_union, Hs. cbn [rbind]. rewrite Hparams.
    rewrite bind_parameters_first_missing; [reflexivity|exact Hpre|].
    by rewrite lookup_union, Hqx, Hix.
  - intros Hpost.
    assert (Hck' : check_keywords (<[x := v]> query_params) = Ok tt).
    { apply check_keywords_ok. intros k Hk.
      rewrite lookup_insert_ne by (intros ->; contradiction).
      by apply (proj1 (check_keywords_ok _) Hck). }
    assert (Hx : (<[x := v]> query_params ∪ items) !! x = Some v).
    { by rewrite lookup_union, lookup_insert_eq, union_Some_l. }
    assert (Hother : forall n, n <> x ->
              (<[x := v]> query_params ∪ items) !! n = (query_params ∪ items) !! n).
    { intros n Hn. by rewrite !lookup_union, lookup_insert_ne. }
    destruct (bind_parameters_succeeds (fn_name func)
                (<[x := v]> query_params ∪ items) (fn_params func) ∅)
      as [kwargs Hb].
    { intros n Hn. destruct (decide (n = x)) as [->|Hne]; [by rewrite Hx|].
      rewrite Hother by done. rewrite Hparams in Hn.
      apply elem_of_app in Hn as [Hn|Hn]; [by apply Hpre|].
      apply elem_of_cons in Hn as [[=]|Hn]; [congruence|by apply Hpost]. }
    destruct (call_bound w func _ _ Hb) as (args & Hcall & Hargs).
    assert (Hkx : kwargs !! x = Some v).
    { rewrite (bind_parameters_lookup _ _ _ _ _ x Hb), Hx.
      rewrite bool_decide_eq_true_2; [reflexivity|].
      rewrite Hparams, fmap_app. apply elem_of_app. right. left. }
    exists kwargs, args. split; [|split; [exact Hkx|by apply Hargs]].
    unfold caller, caller_kwargs. rewrite Hck'. cbn [rbind].
    rewrite supplement_union, Hs. cbn [rbind]. rewrite Hb.
    cbn [lift bind emit app]. rewrite Hcall. by destruct (fn_body _ _ _).
Qed.

Lemma caller_required_parameter_witness :
  caller 0%N needs_two page_a page_b {[ "y" := VStr "1" ]}
  = ([], Raise (KeyError "needs_two requires a parameter x which was not provided in the query"))
  /\ exists kwargs args,
       caller 0%N needs_two page_a page_b (<[ "x" := VStr "2" ]> {[ "y" := VStr "1" ]})
       = ([Invoke "needs_two" kwargs], fn_body needs_two 0%N args)
       /\ kwargs !! "x" = Some (VStr "2")
       /\ args !! "x" = Some (VStr "2").
Proof.
  destruct (caller_required_parameter 0%N needs_two page_a page_b {[ "y" := VStr "1" ]}
              page_items [("y", None)] "x" [] (VStr "2")) as [Hraise Hcall].
  - reflexivity.
  - vm_compute. reflexivity.
  - unfold own_names. set_unfold. intuition discriminate.
  - vm_compute. reflexivity.
  - vm_compute. reflexivity.
  - vm_compute. reflexivity.
  - intros n Hn. apply elem_of_cons in Hn as [[= ->]|Hn]; [|by apply elem_of_nil in Hn].
    exists (VStr "1"). vm_compute. reflexivity.
  - split; [exact Hraise|]. apply Hcall. intros n Hn. by apply elem_of_nil in Hn.
Defined.

(** C6, as the claim has it, fails: when two required parameters are
    missing, the error names the first declared, and supplying the second
    alone does not make the binding succeed. *)
Lemma missing_parameter_not_named :
  ~ (forall (codecs : Codecs.Registry) func a b query_params items x v,
       check_keywords query_params = Ok tt ->
       x ∉ own_names ->
       special_items a b = Ok items ->
       (x, None) ∈ fn_params func ->
       items !! x = None ->
       query_params !! x = None ->
       caller_kwargs func a b query_params
       = Raise (KeyError (missing_message (fn_name func) x))
       /\ exists kwargs,
            caller_kwargs func a b (<[x := v]> query_params) = Ok kwargs
            /\ kwargs !! x = Some v).
Proof.
  intros H.
  destruct (H bare_codecs needs_two page_a page_b ∅ page_items "x" (VStr "2"))
    as [Hfirst (kwargs & Hsecond & _)].
  - vm_compute. reflexivity.
  - unfold own_names. set_unfold. intuition discriminate.
  - vm_compute. reflexivity.
  - right. left.
  - vm_compute. reflexivity.
  - vm_compute. reflexivity.
  - vm_compute in Hsecond. discriminate.
Qed.

Example caller_two_missing {codecs : Codecs.Registry} :
  caller_kwargs needs_two page_a page_b ∅
  = Raise (KeyError "needs_two requires a parameter y which was not provided in the query").
Proof. vm_compute. reflexivity. Qed.

Example caller_second_supplied {codecs : Codecs.Registry} :
  caller_kwargs needs_two page_a page_b {[ "x" := VStr "2" ]}
  = Raise (KeyError "needs_two requires a parameter y which was not provided in the query").
Proof. vm_compute. reflexivity. Qed.

(** * The rest of the module *)

(** ** Strings *)

Lemma append_cons c s t : String c s +:+ t = String c (s +:+ t).
Proof. reflexivity. Qed.

Lemma append_empty_r s : s +:+ "" = s.
Proof. induction s as [|c s IH]; [reflexivity|]. by rewrite append_cons, IH. Qed.

Lemma append_assoc s1 s2 s3 : (s1 +:+ s2) +:+ s3 = s1 +:+ s2 +:+ s3.
Proof. induction s1 as [|c s1 IH]; [reflexivity|]. by rewrite !append_cons, IH. Qed.

Lemma string_of_list_ascii_snoc l c s :
  string_of_list_ascii (l ++ [c]) +:+ s = string_of_list_ascii l +:+ String c s.
Proof.
  induction l as [|d l IH]; [reflexivity|].
  cbn [app string_of_list_ascii]. by rewrite !append_cons, IH.
Qed.

Lemma starts_with_append sep r : starts_with sep (sep +:+ r) = true.
Proof.
  induction sep as [|c sep IH]; [reflexivity|].
  rewrite append_cons. cbn [starts_with]. by rewrite Ascii.eqb_refl.
Qed.

Lemma starts_with_inv sep s : starts_with sep s = true -> exists r, s = sep +:+ r.
Proof.
  revert s. induction sep as [|c sep IH]; intros s H.
  - by exists s.
  - destruct s as [|d s]; [discriminate|]. cbn in H.
    destruct (Ascii.eqb_spec c d) as [->|]; [|discriminate].
    destruct (IH s H) as [r ->]. exists r. by rewrite append_cons.
Qed.

Lemma length_append s1 s2 :
  String.length (s1 +:+ s2) = (String.length s1 + String.length s2)%nat.
Proof.
  induction s1 as [|c s1 IH]; [reflexivity|].
  rewrite append_cons. cbn [String.length]. by rewrite IH.
Qed.

(** ** str.split *)

Lemma split_from_skip sep cur p r :
  split_from sep (String.length p) cur (p +:+ r) = split_from sep 0 cur r.
Proof. induction p as [|c p IH]; [reflexivity|]. rewrite append_cons. exact IH. Qed.

Lemma split_from_match c0 sep' cur r :
  split_from (String c0 sep') 0 cur (String c0 sep' +:+ r)
  = string_of_list_ascii (rev cur) :: split_from (String c0 sep') 0 [] r.
Proof.
  pose proof (starts_with_append (String c0 sep') r) as Hs.
  rewrite append_cons in *. cbn [split_from]. rewrite Hs.
  f_equal. cbn [String.length]. rewrite Nat.sub_1_r. cbn [Nat.pred].
  apply split_from_skip.
Qed.

Lemma split_from_nonempty sep skip cur s : split_from sep skip cur s <> [].
Proof.
  revert skip cur. induction s as [|c s IH]; intros skip cur; [done|].
  cbn [split_from]. destruct skip; [|apply IH].
  destruct (starts_with sep (String c s)); [done|apply IH].
Qed.

Lemma last_piece_cons x pieces : pieces <> [] -> last_piece (x :: pieces) = last_piece pieces.
Proof. unfold last_piece. by destruct pieces. Qed.

(** What [split] leaves in its last piece: the whole string when the
    separator does not occur, and otherwise what follows an occurrence of
    the separator after which there is no other. *)
Lemma split_last_piece c0 sep' n s :
  let sep := String c0 sep' in
  (String.length s <= n)%nat ->
  (contains sep s = false ->
   forall cur, split_from sep 0 cur s = [string_of_list_ascii (rev cur) +:+ s])
  /\ (contains sep s = true ->
      exists pre t,
        s = pre +:+ sep +:+ t /\ contains sep t = false
        /\ forall cur, last_piece (split_from sep 0 cur s) = t).
Proof.
  intros sep. revert s. induction n as [|n IH]; intros s Hlen.
  - destruct s; [|cbn in Hlen; lia]. split; [|discriminate].
    intros _ cur. cbn. by rewrite append_empty_r.
  - destruct s as [|c s].
    { split; [|discriminate]. intros _ cur. cbn. by rewrite append_empty_r. }
    destruct (starts_with sep (String c s)) eqn:Hs.
    + assert (Hc : contains sep (String c s) = true) by (cbn [contains]; by rewrite Hs).
      rewrite Hc. split; [discriminate|]. intros _.
      destruct (starts_with_inv _ _ Hs) as [r Hr].
      assert (Hrlen : (String.length r <= n)%nat).
      { apply (f_equal String.length) in Hr. rewrite length_append in Hr.
        cbn in Hr, Hlen. lia. }
      destruct (IH r Hrlen) as [Hnone Hsome].
      destruct (contains sep r) eqn:Hcr.
      * destruct (Hsome eq_refl) as (pre & t & -> & Ht & Hlast).
        exists (sep +:+ pre), t. split; [by rewrite Hr, append_assoc|].
        split; [exact Ht|]. intros cur. rewrite Hr.
        unfold sep at 1 2. rewrite split_from_match.
        rewrite last_piece_cons by apply split_from_nonempty. apply Hlast.
      * exists "", r. split; [exact Hr|]. split; [exact Hcr|].
        intros cur. rewrite Hr. unfold sep at 1 2. rewrite split_from_match.
        rewrite (Hnone eq_refl). reflexivity.
    + assert (Hc : contains sep (String c s) = contains sep s)
        by (cbn [contains]; by rewrite Hs).
      rewrite Hc.
      assert (Hstep : forall cur,
                 split_from sep 0 cur (String c s) = split_from sep 0 (c :: cur) s).
      { intros cur. cbn [split_from]. by rewrite Hs. }
      destruct (IH s ltac:(cbn in Hlen; lia)) as [Hnone Hsome]. split.
      * intros Hno cur. rewrite Hstep, (Hnone Hno). cbn [rev].
        by rewrite string_of_list_ascii_snoc.
      * intros Hyes. destruct (Hsome Hyes) as (pre & t & -> & Ht & Hlast).
        exists (String c pre), t. split; [reflexivity|]. split; [exact Ht|].
        intros cur. rewrite Hstep. apply Hlast.
Qed.

(** ** _extract_encoding *)

(** X1. With a Content-Type header, [_extract_encoding] returns [None] when
    the header holds no [charset=], and otherwise the text that follows a
    [charset=] of the header and holds none itself: the end of the header
    after its last [charset=]. *)
Theorem extract_encoding_last_charset (hdrs : gmap string string) content_type :
  hdrs !! "Content-Type" = Some content_type ->
  if contains "charset=" content_type
  then exists pre enc,
         content_type = pre +:+ "charset=" +:+ enc
         /\ contains "charset=" enc = false
         /\ _extract_encoding hdrs = Ok (Some enc)
  else _extract_encoding hdrs = Ok None.
Proof.
  intros Hh. unfold _extract_encoding. rewrite Hh.
  destruct (contains "charset=" content_type) eqn:Hc; [|reflexivity].
  destruct (split_last_piece "c" "harset=" (String.length content_type) content_type
              (le_n _)) as [_ Hsome].
  destruct (Hsome Hc) as (pre & enc & Heq & Henc & Hlast).
  exists pre, enc. split; [exact Heq|]. split; [exact Henc|].
  unfold split. by rewrite Hlast.
Qed.

Lemma extract_encoding_last_charset_witness :
  exists pre enc,
    "text/html; charset=utf-8; charset=latin-1" = pre +:+ "charset=" +:+ enc
    /\ contains "charset=" enc = false
    /\ _extract_encoding {[ "Content-Type" := "text/html; charset=utf-8; charset=latin-1" ]}
       = Ok (Some enc).
Proof.
  exact (extract_encoding_last_charset
           {[ "Content-Type" := "text/html; charset=utf-8; charset=latin-1" ]}
           "text/html; charset=utf-8; charset=latin-1" eq_refl).
Defined.

(** ** caller: what is bound, and from where *)

Lemma bind_parameters_ext fname params (qp1 qp2 kwargs : gmap string value) :
  (forall n, n ∈ params.*1 -> qp1 !! n = qp2 !! n) ->
  bind_parameters fname params qp1 kwargs = bind_parameters fname params qp2 kwargs.
Proof.
  revert kwargs. induction params as [|[n d] rest IH]; intros kwargs H; [reflexivity|].
  cbn [bind_parameters]. rewrite <- (H n) by left.
  assert (Hrest : forall m, m ∈ rest.*1 -> qp1 !! m = qp2 !! m)
    by (intros m Hm; apply H; by right).
  destruct (qp1 !! n); [by apply IH|]. destruct d; [by apply IH|reflexivity].
Qed.

Lemma caller_kwargs_bound {codecs : Codecs.Registry} func a b query_params kwargs :
  caller_kwargs func a b query_params = Ok kwargs ->
  exists items,
    special_items a b = Ok items
    /\ bind_parameters (fn_name func) (fn_params func) (query_params ∪ items) ∅
       = Ok kwargs.
Proof.
  unfold caller_kwargs. destruct (check_keywords _); [|discriminate]. cbn [rbind].
  rewrite supplement_union. destruct (special_items a b) as [items|]; [|discriminate].
  cbn [rbind]. eauto.
Qed.

(** X2. A request parameter that the differ does not declare changes
    nothing: [caller] gives the same events and the same outcome with and
    without it (the names [func], [a] and [b] of [caller]'s own parameters
    apart). *)
Theorem caller_ignores_undeclared {codecs : Codecs.Registry} w func a b (query_params : gmap string value) k v :
  ~ declares func k ->
  k ∉ own_names ->
  caller w func a b (<[k := v]> query_params) = caller w func a b query_params.
Proof.
  intros Hdecl Hown.
  assert (Hk : caller_kwargs func a b (<[k := v]> query_params)
               = caller_kwargs func a b query_params).
  { unfold caller_kwargs.
    assert (Hck : check_keywords (<[k := v]> query_params) = check_keywords query_params).
    { unfold check_keywords, own_names in *. cbn [List.find].
      rewrite !lookup_insert_ne; [reflexivity|..]; intros ->; apply Hown; set_solver. }
    rewrite Hck. destruct (check_keywords query_params); [|reflexivity]. cbn [rbind].
    rewrite !supplement_union. destruct (special_items a b) as [items|]; [|reflexivity].
    cbn [rbind]. apply bind_parameters_ext. intros n Hn.
    rewrite !lookup_union, lookup_insert_ne; [reflexivity|].
    intros ->. by apply Hdecl. }
  unfold caller. by rewrite Hk.
Qed.

Lemma caller_ignores_undeclared_witness :
  caller 0%N compare_length page_a page_b
    (<[ "format" := VStr "json" ]> {[ "a_body" := VStr "mine" ]})
  = caller 0%N compare_length page_a page_b {[ "a_body" := VStr "mine" ]}.
Proof.
  apply (caller_ignores_undeclared 0%N compare_length page_a page_b
           {[ "a_body" := VStr "mine" ]} "format" (VStr "json")).
  - unfold declares. cbn. set_unfold. intuition discriminate.
  - unfold own_names. set_unfold. intuition discriminate.
Defined.

(** X3. The keyword arguments handed to the differ are the values of its
    declared parameters in the request supplemented with the special items,
    and nothing else: no undeclared name is passed, no available value of a
    declared name is dropped. *)
Theorem caller_kwargs_exact {codecs : Codecs.Registry} func a b (query_params : gmap string value) kwargs :
  caller_kwargs func a b query_params = Ok kwargs ->
  exists items,
    special_items a b = Ok items
    /\ forall n,
         kwargs !! n =
           if bool_decide (declares func n) then (query_params ∪ items) !! n else None.
Proof.
  intros Hk. destruct (caller_kwargs_bound _ _ _ _ _ Hk) as (items & Hs & Hb).
  exists items. split; [exact Hs|]. intros n.
  rewrite (bind_parameters_lookup _ _ _ _ _ n Hb). unfold declares.
  rewrite lookup_empty.
  destruct ((query_params ∪ items) !! n); by destruct (bool_decide _).
Qed.

Lemma caller_kwargs_exact_witness :
  exists items,
    special_items page_a page_b = Ok items
    /\ forall n,
         ({[ "a_body" := VBytes (body page_a); "b_body" := VBytes (body page_b) ]}
            : gmap string value) !! n =
           if bool_decide (declares compare_length n)
           then (({[ "format" := VStr "json" ]} : gmap string value) ∪ items) !! n
           else None.
Proof.
  apply (caller_kwargs_exact compare_length page_a page_b {[ "format" := VStr "json" ]}).
  vm_compute. reflexivity.
Defined.

(** X4. A declared parameter with a default, for which neither the request
    nor the special items have a value, is left out of the keyword
    arguments, and the body of the differ runs with the default in its
    place. *)
Theorem caller_default_applies {codecs : Codecs.Registry} w func a b (query_params : gmap string value)
    kwargs items n d :
  NoDup (fn_params func).*1 ->
  caller_kwargs func a b query_params = Ok kwargs ->
  special_items a b = Ok items ->
  (n, Some d) ∈ fn_params func ->
  (query_params ∪ items) !! n = None ->
  kwargs !! n = None
  /\ exists args,
       caller w func a b query_params
       = ([Invoke (fn_name func) kwargs], fn_body func w args)
       /\ args !! n = Some d.
Proof.
  intros Hnd Hk Hs Hin Hnone.
  destruct (caller_kwargs_bound _ _ _ _ _ Hk) as (items' & Hs' & Hb).
  assert (items' = items) as -> by congruence.
  assert (Hkn : kwargs !! n = None).
  { rewrite (bind_parameters_lookup _ _ _ _ _ n Hb), Hnone. apply lookup_empty. }
  split; [exact Hkn|].
  pose proof (bind_parameters_declared _ _ _ _ Hb) as Hdecl.
  assert (Hfill : forall params,
             NoDup params.*1 ->
             (forall m, (m, None) ∈ params -> is_Some (kwargs !! m)) ->
             exists args,
               fill_defaults params kwargs = Ok args
               /\ ((n, Some d) ∈ params -> args !! n = Some d)).
  { induction params as [|[m dm] rest IH]; intros Hnd' Hreq.
    - exists ∅. split; [reflexivity|]. intros H. by apply elem_of_nil in H.
    - cbn in Hnd'. apply NoDup_cons in Hnd' as [Hm Hnd'].
      destruct IH as (args & Hargs & Hd); [exact Hnd'|intros; apply Hreq; by right|].
      cbn [fill_defaults]. rewrite Hargs.
      assert (Hhead : (n, Some d) ∈ (m, dm) :: rest ->
                 m = n -> dm = Some d /\ kwargs !! m = None).
      { intros Hx ->. apply elem_of_cons in Hx as [[= <-]|Hx]; [done|].
        exfalso. apply Hm. apply list_elem_of_fmap. by exists (n, Some d). }
      destruct (kwargs !! m) as [v|] eqn:Hv.
      + exists (<[m := v]> args). split; [reflexivity|]. intros Hx.
        destruct (decide (m = n)) as [Heq|Hne].
        * destruct (Hhead Hx Heq) as [_ ?]. congruence.
        * rewrite lookup_insert_ne by done. apply Hd.
          apply elem_of_cons in Hx as [[= ? ?]|Hx]; [congruence|done].
      + destruct dm as [dv|].
        * exists (<[m := dv]> args). split; [reflexivity|]. intros Hx.
          destruct (decide (m = n)) as [Heq|Hne].
          -- destruct (Hhead Hx Heq) as [[= ->] _]. subst. apply lookup_insert_eq.
          -- rewrite lookup_insert_ne by done. apply Hd.
             apply elem_of_cons in Hx as [[= ? ?]|Hx]; [congruence|done].
        * destruct (Hreq m) as [? ?]; [by left|congruence]. }
  destruct (Hfill (fn_params func) Hnd) as (args & Hargs & Hd).
  { intros m Hm. destruct (bind_parameters_needs _ _ _ _ _ _ Hb Hm) as [v Hv].
    exists v. rewrite (bind_parameters_lookup _ _ _ _ _ m Hb), Hv.
    rewrite bool_decide_eq_true_2; [reflexivity|].
    apply list_elem_of_fmap. by exists (m, None). }
  exists args. split; [|by apply Hd].
  unfold caller. rewrite Hk. cbn [lift bind emit app]. unfold call.
  rewrite bool_decide_eq_true_2 by exact Hdecl. rewrite Hargs. cbn [rbind].
  by destruct (fn_body _ _ _).
Qed.

Lemma caller_default_applies_witness :
  ({[ "a_body" := VBytes (body page_a); "b_body" := VBytes (body page_b) ]}
     : gmap string value) !! "tolerance" = None
  /\ exists args,
       caller 0%N within page_a page_b ∅
       = ([Invoke "within"
             {[ "a_body" := VBytes (body page_a); "b_body" := VBytes (body page_b) ]}],
          fn_body within 0%N args)
       /\ args !! "tolerance" = Some (VInt 0).
Proof.
  apply (caller_default_applies 0%N within page_a page_b ∅
           {[ "a_body" := VBytes (body page_a); "b_body" := VBytes (body page_b) ]}
           page_items "tolerance" (VInt 0)).
  - cbn. repeat constructor; set_unfold; intuition discriminate.
  - vm_compute. reflexivity.
  - vm_compute. reflexivity.
  - right. right. left.
  - vm_compute. reflexivity.
Defined.

(** The exceptions of [caller] itself are ordinary ones. *)
Lemma bind_parameters_raises fname params (query_params kwargs : gmap string value) e :
  bind_parameters fname params query_params kwargs = Raise e ->
  exists msg, e = KeyError msg.
Proof.
  revert kwargs. induction params as [|[n d] rest IH]; intros kwargs H; [discriminate|].
  cbn [bind_parameters] in H. destruct (query_params !! n); [by eapply IH|].
  destruct d; [by eapply IH|]. injection H as <-. eauto.
Qed.

Lemma caller_kwargs_raises {codecs : Codecs.Registry} func a b query_params e :
  caller_kwargs func a b query_params = Raise e ->
  (exists msg, e = KeyError msg) \/ (exists msg, e = TypeError msg)
  \/ (exists msg, e = LookupError msg) \/ e = UnicodeError.
Proof.
  unfold caller_kwargs, check_keywords.
  destruct (List.find _ own_names); [intros [= <-]; eauto|]. cbn [rbind].
  unfold supplement, _extract_encoding.
  destruct (headers a !! "Content-Type") as [content_type|]; cycle 1.
  { intros [= <-]. eauto. }
  assert (Hdec : forall content encoding e',
             Codecs.decode_ignore content encoding = Raise e' ->
             (exists msg, e' = LookupError msg) \/ e' = UnicodeError).
  { intros content encoding e'. unfold Codecs.decode_ignore.
    destruct (Codecs.lookup encoding) as [decode|]; [|intros [= <-]; eauto].
    destruct (decode content); [discriminate|]. intros [= <-]. eauto. }
  destruct (contains "charset=" content_type); cbn [rbind];
    (destruct (Codecs.decode_ignore (body a) _) as [a_text|ea] eqn:Ea;
     [|cbn [rbind]; intros [= <-]; destruct (Hdec _ _ _ Ea) as [[? ->]| ->]; eauto 6];
     cbn [rbind];
     destruct (Codecs.decode_ignore (body b) _) as [b_text|eb] eqn:Eb;
     [|cbn [rbind]; intros [= <-]; destruct (Hdec _ _ _ Eb) as [[? ->]| ->]; eauto 6];
     cbn [rbind]; intros H; destruct (bind_parameters_raises _ _ _ _ _ H); eauto).
Qed.

(** ** DiffHandler.get: the ways a request ends *)

Lemma get_popped {codecs : Codecs.Registry} differs w differ_name request func qp :
  differs !! differ_name = Some func ->
  decode_arguments (arguments request) = Ok qp ->
  get differs w differ_name request =
    match qp !! "a", qp !! "b" with
    | None, _ => ([], Uncaught (KeyError "a"))
    | Some _, None => ([], Uncaught (KeyError "b"))
    | Some a, Some b =>
        match client_fetch w a, client_fetch w b with
        | Raise e, _ => ([Fetch a; Fetch b], Uncaught e)
        | Ok _, Raise e => ([Fetch a; Fetch b], Uncaught e)
        | Ok res_a, Ok res_b =>
            match validate [("a_hash", res_a); ("b_hash", res_b)]
                    (delete "b" (delete "a" qp)) with
            | Mismatch =>
                ([Fetch a; Fetch b],
                 SendError 500 (Some "Fetched content does not match hash."))
            | Passed qp' =>
                let '(t, r) := caller (state w) func res_a res_b (VStr <$> qp') in
                ([Fetch a; Fetch b] ++ t,
                 match r with
                 | Raise e => Uncaught e
                 | Ok res =>
                     if json_serializable res then Written [("diff", res)]
                     else Uncaught (TypeError "Object is not JSON serializable")
                 end)
            end
        end
    end.
Proof.
  intros Hf Hq. unfold get. rewrite Hf, Hq. cbn [lift bind].
  unfold pop at 1. destruct (qp !! "a") as [a|]; [|reflexivity]. cbn [lift bind].
  unfold pop at 1. rewrite lookup_delete_ne by done.
  destruct (qp !! "b") as [b|]; [|reflexivity].
  unfold fetch_both. cbn [lift bind emit].
  destruct (client_fetch w a) as [res_a|e]; [|reflexivity]. cbn [lift bind].
  destruct (client_fetch w b) as [res_b|e]; [|reflexivity]. cbn [lift bind ret app].
  destruct (validate _ _) as [qp'|]; [|reflexivity].
  destruct (caller _ _ _ _ _) as [t [res|e]]; [|reflexivity].
  cbn [bind]. unfold write. cbn [forallb snd]. rewrite andb_true_r.
  destruct (json_serializable res); cbn; by rewrite ?app_nil_r.
Qed.

(** X5. A request without [a], or without [b], ends in an uncaught
    [KeyError] (status 500) before anything is fetched. *)
Theorem get_missing_url {codecs : Codecs.Registry} differs w differ_name request func qp :
  differs !! differ_name = Some func ->
  decode_arguments (arguments request) = Ok qp ->
  qp !! "a" = None \/ qp !! "b" = None ->
  fst (get differs w differ_name request) = []
  /\ status_code (snd (get differs w differ_name request)) = 500%Z
  /\ (snd (get differs w differ_name request) = Uncaught (KeyError "a")
      \/ snd (get differs w differ_name request) = Uncaught (KeyError "b")).
Proof.
  intros Hf Hq Hab. rewrite (get_popped _ _ _ _ _ _ Hf Hq).
  destruct (qp !! "a"); [|cbn; auto].
  destruct (qp !! "b"); [|cbn; auto].
  destruct Hab; discriminate.
Qed.

Lemma get_missing_url_witness :
  let response := get registry web "compare_length" (request_of [("a", "http://a")]) in
  fst response = []
  /\ status_code (snd response) = 500%Z
  /\ (snd response = Uncaught (KeyError "a") \/ snd response = Uncaught (KeyError "b")).
Proof.
  apply (get_missing_url registry web "compare_length" (request_of [("a", "http://a")])
           compare_length {[ "a" := "http://a" ]}).
  - vm_compute. reflexivity.
  - vm_compute. reflexivity.
  - right. vm_compute. reflexivity.
Defined.

(** X6. When either fetch fails, both have been issued all the same, the
    differ is not invoked, and the request ends in the uncaught exception of
    the fetch (that of [a] when both fail). *)
Theorem get_fetch_failure {codecs : Codecs.Registry} differs w differ_name request func qp a b :
  differs !! differ_name = Some func ->
  decode_arguments (arguments request) = Ok qp ->
  qp !! "a" = Some a ->
  qp !! "b" = Some b ->
  (exists e, client_fetch w a = Raise e) \/ (exists e, client_fetch w b = Raise e) ->
  fst (get differs w differ_name request) = [Fetch a; Fetch b]
  /\ exists e,
       snd (get differs w differ_name request) = Uncaught e
       /\ (client_fetch w a = Raise e
           \/ (exists res_a, client_fetch w a = Ok res_a) /\ client_fetch w b = Raise e).
Proof.
  intros Hf Hq Ha Hb Hfail. rewrite (get_popped _ _ _ _ _ _ Hf Hq), Ha, Hb.
  destruct (client_fetch w a) as [res_a|ea]; destruct (client_fetch w b) as [res_b|eb];
    cbn [fst snd].
  - destruct Hfail as [[e [=]]|[e [=]]].
  - split; [reflexivity|]. exists eb. eauto.
  - split; [reflexivity|]. exists ea. eauto.
  - split; [reflexivity|]. exists ea. eauto.
Qed.

Lemma get_fetch_failure_witness :
  let request := request_of [("a", "http://a"); ("b", "http://nowhere")] in
  fst (get registry web "compare_length" request)
  = [Fetch "http://a"; Fetch "http://nowhere"]
  /\ exists e,
       snd (get registry web "compare_length" request) = Uncaught e
       /\ (client_fetch web "http://a" = Raise e
           \/ (exists res_a, client_fetch web "http://a" = Ok res_a)
              /\ client_fetch web "http://nowhere" = Raise e).
Proof.
  apply (get_fetch_failure registry web "compare_length"
           (request_of [("a", "http://a"); ("b", "http://nowhere")])
           compare_length {[ "a" := "http://a"; "b" := "http://nowhere" ]}).
  - vm_compute. reflexivity.
  - vm_compute. reflexivity.
  - vm_compute. reflexivity.
  - vm_compute. reflexivity.
  - right. exists (FetchError "http://nowhere"). reflexivity.
Defined.

(** X7. An [a_hash] that is not the digest of [a]'s body ends the request
    with [send_error(500)] and its reason, after both fetches and without
    the differ being invoked. *)
Theorem get_a_hash_mismatch {codecs : Codecs.Registry} differs w differ_name request func qp a b res_a res_b supplied :
  differs !! differ_name = Some func ->
  decode_arguments (arguments request) = Ok qp ->
  qp !! "a" = Some a ->
  qp !! "b" = Some b ->
  client_fetch w a = Ok res_a ->
  client_fetch w b = Ok res_b ->
  qp !! "a_hash" = Some supplied ->
  supplied <> hexdigest (sha256 (body res_a)) ->
  get differs w differ_name request
  = ([Fetch a; Fetch b], SendError 500 (Some "Fetched content does not match hash.")).
Proof.
  intros Hf Hq Ha Hb Hra Hrb Hh Hne.
  rewrite (get_popped _ _ _ _ _ _ Hf Hq), Ha, Hb, Hra, Hrb.
  rewrite (validate_with_a_hash _ _ _ supplied) by (by rewrite !lookup_delete_ne).
  destruct (String.eqb_spec (hexdigest (sha256 (body res_a))) supplied); [congruence|].
  reflexivity.
Qed.

Lemma get_a_hash_mismatch_witness :
  get registry web "compare_length"
    (request_of [("a", "http://a"); ("b", "http://b"); ("a_hash", "00")])
  = ([Fetch "http://a"; Fetch "http://b"],
     SendError 500 (Some "Fetched content does not match hash.")).
Proof.
  apply (get_a_hash_mismatch registry web "compare_length"
           (request_of [("a", "http://a"); ("b", "http://b"); ("a_hash", "00")])
           compare_length
           {[ "a" := "http://a"; "b" := "http://b"; "a_hash" := "00" ]}
           "http://a" "http://b" page_a page_b "00");
    try (vm_compute; reflexivity).
  vm_compute. discriminate.
Defined.

(** X8. An [a_hash] that is the digest of [a]'s body is checked and
    consumed: the request is answered exactly as the same request without
    it. *)
Theorem get_a_hash_match {codecs : Codecs.Registry} differs w differ_name request request' qp a res_a :
  decode_arguments (arguments request) = Ok qp ->
  decode_arguments (arguments request') = Ok (delete "a_hash" qp) ->
  qp !! "a" = Some a ->
  client_fetch w a = Ok res_a ->
  qp !! "a_hash" = Some (hexdigest (sha256 (body res_a))) ->
  get differs w differ_name request = get differs w differ_name request'.
Proof.
  intros Hq Hq' Ha Hra Hh.
  destruct (differs !! differ_name) as [func|] eqn:Hf; [|unfold get; by rewrite Hf].
  rewrite (get_popped _ _ _ _ _ _ Hf Hq), (get_popped _ _ _ _ _ _ Hf Hq').
  rewrite !lookup_delete_ne by done. rewrite Ha, Hra.
  destruct (qp !! "b") as [b|]; [|reflexivity].
  destruct (client_fetch w b) as [res_b|]; [|reflexivity].
  rewrite (validate_with_a_hash _ _ _ (hexdigest (sha256 (body res_a))))
    by (by rewrite !lookup_delete_ne).
  rewrite String.eqb_refl.
  rewrite validate_without_a_hash
    by (rewrite !lookup_delete_ne by done; apply lookup_delete_eq).
  rewrite (delete_delete _ "a_hash" "b"), (delete_delete _ "a_hash" "a").
  reflexivity.
Qed.

Lemma get_a_hash_match_witness :
  get registry web "compare_length"
    (request_of [("a", "http://a"); ("b", "http://b");
                 ("a_hash", "f0e4c2f76c58916ec258f246851bea091d14d4247a2fc3e18694461b1816e13b")])
  = get registry web "compare_length" (request_of [("a", "http://a"); ("b", "http://b")]).
Proof.
  apply (get_a_hash_match registry web "compare_length" _ _
           {[ "a" := "http://a"; "b" := "http://b";
              "a_hash" := "f0e4c2f76c58916ec258f246851bea091d14d4247a2fc3e18694461b1816e13b" ]}
           "http://a" page_a); vm_compute; reflexivity.
Defined.

(** X9. Whatever the request, its effects are nothing at all, the two
    fetches, or the two fetches followed by one invocation of the differ;
    and a response is written only in the last case, by the registered
    differ. *)
Theorem get_trace_shape {codecs : Codecs.Registry} differs w differ_name request :
  let trace := fst (get differs w differ_name request) in
  let response := snd (get differs w differ_name request) in
  (trace = []
   \/ (exists a b, trace = [Fetch a; Fetch b])
   \/ (exists a b name kwargs, trace = [Fetch a; Fetch b; Invoke name kwargs]))
  /\ ((exists chunk, response = Written chunk) ->
      exists a b func kwargs,
        differs !! differ_name = Some func
        /\ trace = [Fetch a; Fetch b; Invoke (fn_name func) kwargs]).
Proof.
  cbv zeta.
  destruct (differs !! differ_name) as [func|] eqn:Hf; cycle 1.
  { unfold get. rewrite Hf. cbn. split; [by left|]. by intros [? [=]]. }
  destruct (decode_arguments (arguments request)) as [qp|e] eqn:Hq; cycle 1.
  { unfold get. rewrite Hf, Hq. cbn. split; [by left|]. by intros [? [=]]. }
  rewrite (get_popped _ _ _ _ _ _ Hf Hq).
  destruct (qp !! "a") as [a|]; [|cbn; split; [by left|by intros [? [=]]]].
  destruct (qp !! "b") as [b|]; [|cbn; split; [by left|by intros [? [=]]]].
  destruct (client_fetch w a) as [res_a|]; destruct (client_fetch w b) as [res_b|];
    try (cbn; split; [right; left; eauto|by intros [? [=]]]).
  destruct (validate _ _) as [qp'|];
    [|cbn; split; [right; left; eauto|by intros [? [=]]]].
  unfold caller. destruct (caller_kwargs _ _ _ _) as [kwargs|e].
  - cbn [lift bind emit app]. destruct (call _ _ _); cbn [fst snd app].
    + split; [right; right; eauto 6|]. intros _. exists a, b, func, kwargs. done.
    + split; [right; right; eauto 6|]. by intros [? [=]].
  - cbn. split; [right; left; eauto|by intros [? [=]]].
Qed.

(** X10. When [caller] cannot bind the arguments, the request ends in its
    uncaught exception, status 500, both URLs having been fetched and the
    differ not invoked. *)
Theorem get_binding_failure {codecs : Codecs.Registry}
    differs w differ_name request func qp a b res_a res_b qp' e :
  differs !! differ_name = Some func ->
  decode_arguments (arguments request) = Ok qp ->
  qp !! "a" = Some a ->
  qp !! "b" = Some b ->
  client_fetch w a = Ok res_a ->
  client_fetch w b = Ok res_b ->
  validate [("a_hash", res_a); ("b_hash", res_b)] (delete "b" (delete "a" qp))
  = Passed qp' ->
  caller_kwargs func res_a res_b (VStr <$> qp') = Raise e ->
  get differs w differ_name request = ([Fetch a; Fetch b], Uncaught e)
  /\ status_code (snd (get differs w differ_name request)) = 500%Z.
Proof.
  intros Hf Hq Ha Hb Hra Hrb Hv Hk.
  rewrite (get_popped _ _ _ _ _ _ Hf Hq), Ha, Hb, Hra, Hrb, Hv.
  unfold caller. rewrite Hk. split; [reflexivity|].
  cbn. by destruct (caller_kwargs_raises _ _ _ _ _ Hk) as [[? ->]|[[? ->]|[[? ->]| ->]]].
Qed.

Lemma get_binding_failure_witness :
  let request := request_of [("a", "http://a"); ("b", "http://b"); ("y", "1")] in
  get registry web "needs_two" request
  = ([Fetch "http://a"; Fetch "http://b"],
     Uncaught (KeyError "needs_two requires a parameter x which was not provided in the query"))
  /\ status_code (snd (get registry web "needs_two" request)) = 500%Z.
Proof.
  apply (get_binding_failure registry web "needs_two"
           (request_of [("a", "http://a"); ("b", "http://b"); ("y", "1")])
           needs_two {[ "a" := "http://a"; "b" := "http://b"; "y" := "1" ]}
           "http://a" "http://b" page_a page_b {[ "y" := "1" ]});
    vm_compute; reflexivity.
Defined.

(** X11. A request parameter named [func] collides with [caller]'s own first
    parameter: the request ends in an uncaught [TypeError] after the
    fetches, whatever the differ declares. *)
Theorem get_func_parameter {codecs : Codecs.Registry} differs w differ_name request func qp a b res_a res_b v :
  differs !! differ_name = Some func ->
  decode_arguments (arguments request) = Ok qp ->
  qp !! "a" = Some a ->
  qp !! "b" = Some b ->
  qp !! "a_hash" = None ->
  qp !! "func" = Some v ->
  client_fetch w a = Ok res_a ->
  client_fetch w b = Ok res_b ->
  get differs w differ_name request
  = ([Fetch a; Fetch b],
     Uncaught (TypeError "caller() got multiple values for argument 'func'")).
Proof.
  intros Hf Hq Ha Hb Hh Hv Hra Hrb.
  rewrite (get_popped _ _ _ _ _ _ Hf Hq), Ha, Hb, Hra, Hrb.
  rewrite validate_without_a_hash by (by rewrite !lookup_delete_ne).
  unfold caller, caller_kwargs, check_keywords, own_names. cbn [List.find].
  rewrite bool_decide_eq_true_2; [reflexivity|].
  rewrite lookup_fmap, !lookup_delete_ne, Hv by done. by eexists.
Qed.

Lemma get_func_parameter_witness :
  get registry web "compare_length"
    (request_of [("a", "http://a"); ("b", "http://b"); ("func", "os.system")])
  = ([Fetch "http://a"; Fetch "http://b"],
     Uncaught (TypeError "caller() got multiple values for argument 'func'")).
Proof.
  apply (get_func_parameter registry web "compare_length"
           (request_of [("a", "http://a"); ("b", "http://b"); ("func", "os.system")])
           compare_length
           {[ "a" := "http://a"; "b" := "http://b"; "func" := "os.system" ]}
           "http://a" "http://b" page_a page_b "os.system");
    vm_compute; reflexivity.
Defined.

(** X12. Once the differ has been invoked, an exception it raises ends
    the request as that uncaught exception, answered with the status of the
    exception when it is a [tornado.web.HTTPError] and with 500 otherwise;
    a result that JSON cannot encode ends it in an uncaught [TypeError],
    status 500.  Neither response carries a [diff]. *)
Theorem get_differ_failure {codecs : Codecs.Registry}
    differs w differ_name request func qp a b res_a res_b qp' kwargs :
  differs !! differ_name = Some func ->
  decode_arguments (arguments request) = Ok qp ->
  qp !! "a" = Some a ->
  qp !! "b" = Some b ->
  client_fetch w a = Ok res_a ->
  client_fetch w b = Ok res_b ->
  validate [("a_hash", res_a); ("b_hash", res_b)] (delete "b" (delete "a" qp))
  = Passed qp' ->
  caller_kwargs func res_a res_b (VStr <$> qp') = Ok kwargs ->
  fst (get differs w differ_name request)
  = [Fetch a; Fetch b; Invoke (fn_name func) kwargs]
  /\ (forall e, call (state w) func kwargs = Raise e ->
        snd (get differs w differ_name request) = Uncaught e
        /\ json_object (snd (get differs w differ_name request)) = None
        /\ status_code (snd (get differs w differ_name request))
           = match e with HTTPError status => status | _ => 500%Z end)
  /\ (forall res, call (state w) func kwargs = Ok res ->
        json_serializable res = false ->
        snd (get differs w differ_name request)
        = Uncaught (TypeError "Object is not JSON serializable")
        /\ json_object (snd (get differs w differ_name request)) = None
        /\ status_code (snd (get differs w differ_name request)) = 500%Z).
Proof.
  intros Hf Hq Ha Hb Hra Hrb Hv Hk.
  rewrite (get_popped _ _ _ _ _ _ Hf Hq), Ha, Hb, Hra, Hrb, Hv.
  unfold caller. rewrite Hk. cbn [lift bind emit app].
  destruct (call (state w) func kwargs) as [res|e]; cbn [fst snd app].
  - split; [reflexivity|]. split; [by intros e [=]|].
    intros res' [= <-] ->. done.
  - split; [reflexivity|]. split; [|by intros res [=]].
    intros e' [= <-]. repeat split.
Qed.

Lemma get_differ_failure_witness :
  let differs : gmap string differ := {[ "a_body" := echo "a_body" ]} in
  let request := request_of [("a", "http://a"); ("b", "http://b")] in
  snd (get differs web "a_body" request)
  = Uncaught (TypeError "Object is not JSON serializable")
  /\ json_object (snd (get differs web "a_body" request)) = None
  /\ status_code (snd (get differs web "a_body" request)) = 500%Z.
Proof.
  intros differs request.
  destruct (get_differ_failure differs web "a_body" request
              (echo "a_body") {[ "a" := "http://a"; "b" := "http://b" ]}
              "http://a" "http://b" page_a page_b ∅
              {[ "a_body" := VBytes (body page_a) ]})
    as (_ & _ & Hres); try (vm_compute; reflexivity).
  apply (Hres (VBytes (body page_a))); vm_compute; reflexivity.
Defined.

(** ** The request's parameters *)

Lemma last_map_some {A} (v : list A) : List.last (map Some v) None = last v.
Proof.
  induction v as [|x v IH]; [reflexivity|].
  destruct v as [|y v]; [reflexivity|]. exact IH.
Qed.

Lemma decode_items_forall2 items items' :
  decode_items items = Ok items' ->
  Forall2 (fun kv ks => kv.1 = ks.1 /\ decode_last kv.2 = Ok ks.2) items items'.
Proof.
  revert items'. induction items as [|[k v] rest IH]; intros items' H; cbn in H.
  - injection H as <-. constructor.
  - destruct (decode_last v) as [s|] eqn:Hs; [|discriminate]. cbn in H.
    destruct (decode_items rest) as [rest'|]; [|discriminate]. cbn in H.
    injection H as <-. constructor; [done|by apply IH].
Qed.

Lemma decode_arguments_items args qp :
  decode_arguments args = Ok qp ->
  exists items',
    qp = list_to_map items'
    /\ Forall2 (fun kv ks => kv.1 = ks.1 /\ decode_last kv.2 = Ok ks.2)
         (map_to_list args) items'
    /\ NoDup items'.*1.
Proof.
  unfold decode_arguments.
  destruct (decode_items (map_to_list args)) as [items'|] eqn:Hd; [|discriminate].
  cbn. intros [= <-]. exists items'. split; [reflexivity|].
  pose proof (decode_items_forall2 _ _ Hd) as Hall. split; [exact Hall|].
  assert (Hfst : items'.*1 = (map_to_list args).*1).
  { clear Hd. induction Hall as [|[k v] [k' s] l l' [Hk _] _ IH]; [reflexivity|].
    cbn in *. by rewrite IH, Hk. }
  rewrite Hfst. apply NoDup_fst_map_to_list.
Qed.

(** X13. "If params repeat, take last one": when the arguments decode, the
    parameter dictionary has the names of the request and no other, each
    with the UTF-8 decoding of the last value sent under it. *)
Theorem decode_arguments_last (args : gmap string (list bytes)) qp k :
  decode_arguments args = Ok qp ->
  match args !! k with
  | None => qp !! k = None
  | Some v =>
      exists bs s,
        last v = Some bs
        /\ Codecs.utf8_decode_strict bs = Ok s
        /\ qp !! k = Some s
  end.
Proof.
  intros Hq. destruct (decode_arguments_items _ _ Hq) as (items' & -> & Hall & Hnd).
  destruct (args !! k) as [v|] eqn:Hk.
  - apply elem_of_map_to_list in Hk.
    destruct (proj1 (list_elem_of_lookup _ _) Hk) as [i Hi].
    destruct (Forall2_lookup_l _ _ _ _ _ Hall Hi) as ([k' s] & Hi' & Hkk & Hdec).
    cbn in Hkk, Hdec. subst k'. unfold decode_last in Hdec. rewrite last_map_some in Hdec.
    destruct (last v) as [bs|]; [|discriminate].
    exists bs, s. split; [reflexivity|]. split; [exact Hdec|].
    apply elem_of_list_to_map_1; [exact Hnd|].
    apply list_elem_of_lookup. eauto.
  - apply not_elem_of_list_to_map_1. intros Hin.
    apply list_elem_of_fmap in Hin as ([k' s] & -> & Hin).
    destruct (proj1 (list_elem_of_lookup _ _) Hin) as [i Hi].
    destruct (Forall2_lookup_r _ _ _ _ _ Hall Hi) as ([k'' v] & Hi' & Hkk & _).
    cbn in Hkk. subst k''.
    assert (Hv : args !! k' = Some v).
    { apply elem_of_map_to_list. apply list_elem_of_lookup. eauto. }
    cbn in Hk. congruence.
Qed.

Lemma decode_arguments_last_witness :
  exists bs s,
    last [bytes_of_str "http://old"; bytes_of_str "http://a"] = Some bs
    /\ Codecs.utf8_decode_strict bs = Ok s
    /\ ({[ "a" := "http://a" ]} : gmap string string) !! "a" = Some s.
Proof.
  assert (H : decode_arguments
                {[ "a" := [bytes_of_str "http://old"; bytes_of_str "http://a"] ]}
              = Ok {[ "a" := "http://a" ]}) by (vm_compute; reflexivity).
  exact (decode_arguments_last _ _ "a" H).
Defined.

(** X14. One parameter whose last value is not UTF-8 is enough for the
    request to end in an uncaught exception before anything is fetched,
    whether or not the differ would have used that parameter. *)
Theorem get_undecodable_parameter {codecs : Codecs.Registry} differs w differ_name request func k v bs :
  differs !! differ_name = Some func ->
  arguments request !! k = Some v ->
  last v = Some bs ->
  Codecs.utf8_decode_strict bs = Raise UnicodeDecodeError ->
  exists e, get differs w differ_name request = ([], Uncaught e).
Proof.
  intros Hf Hk Hlast Hbad. unfold get. rewrite Hf.
  destruct (decode_arguments (arguments request)) as [qp|e] eqn:Hq; [|by exists e].
  exfalso. destruct (decode_arguments_items _ _ Hq) as (items' & _ & Hall & _).
  apply elem_of_map_to_list in Hk.
  destruct (proj1 (list_elem_of_lookup _ _) Hk) as [i Hi].
  destruct (Forall2_lookup_l _ _ _ _ _ Hall Hi) as ([k' s] & _ & _ & Hdec).
  cbn in Hdec. unfold decode_last in Hdec. rewrite last_map_some, Hlast in Hdec.
  congruence.
Qed.

Lemma get_undecodable_parameter_witness :
  exists e,
    get registry web "compare_length"
      (mkRequest {[ "a" := [bytes_of_str "http://a"]; "b" := [bytes_of_str "http://b"];
                    "note" := [[xe9]] ]})
    = ([], Uncaught e).
Proof.
  apply (get_undecodable_parameter registry web "compare_length" _ compare_length
           "note" [[xe9]] [xe9]); vm_compute; reflexivity.
Defined.

(** ** The length of a digest *)

Lemma compress_length h block :
  length h = 8%nat -> length (SHA256.compress h block) = 8%nat.
Proof.
  intros Hh. unfold SHA256.compress. rewrite length_map, length_combine, Hh.
  reflexivity.
Qed.

Lemma sha256_length content : length (sha256 content) = 32%nat.
Proof.
  unfold sha256, SHA256.digest, SHA256.digest_words. rewrite length_map.
  set (blocks := SHA256.blocks _ _).
  assert (Hw : length (fold_left SHA256.compress blocks SHA256.H0) = 8%nat).
  { assert (H0 : length SHA256.H0 = 8%nat) by (vm_compute; reflexivity).
    revert H0. generalize SHA256.H0. clearbody blocks.
    induction blocks as [|blk blocks IH]; intros h Hh; [exact Hh|].
    cbn [fold_left]. apply IH. by apply compress_length. }
  revert Hw. generalize (fold_left SHA256.compress blocks SHA256.H0).
  intros ws Hws.
  assert (Hflat : forall l : list N,
             length (flat_map (SHA256.be_bytes 4) l) = (4 * length l)%nat).
  { induction l as [|x l IH]; [reflexivity|].
    cbn [flat_map]. rewrite length_app, IH. cbn [length].
    unfold SHA256.be_bytes. rewrite length_map, length_rev, length_seq. lia. }
  rewrite Hflat, Hws. reflexivity.
Qed.

Lemma hexdigest_length d : String.length (hexdigest d) = (2 * length d)%nat.
Proof.
  induction d as [|b d IH]; [reflexivity|].
  rewrite hexdigest_cons. cbn [String.length length]. rewrite IH. lia.
Qed.

(** X15. A digest is 64 hexadecimal digits long, so a supplied [a_hash] of
    any other length is rejected whatever the content fetched. *)
Theorem validate_a_hash_length res_a res_b (qp : gmap string string) supplied :
  qp !! "a_hash" = Some supplied ->
  String.length supplied <> 64%nat ->
  validate [("a_hash", res_a); ("b_hash", res_b)] qp = Mismatch.
Proof.
  intros Hq Hlen. rewrite (validate_with_a_hash _ _ _ _ Hq).
  destruct (String.eqb_spec (hexdigest (sha256 (body res_a))) supplied) as [Heq|];
    [|reflexivity].
  exfalso. apply Hlen. rewrite <- Heq, hexdigest_length, sha256_length. reflexivity.
Qed.

Lemma validate_a_hash_length_witness :
  validate [("a_hash", page_a); ("b_hash", page_b)] {[ "a_hash" := "f0e4c2f7" ]}
  = Mismatch.
Proof.
  apply (validate_a_hash_length page_a page_b {[ "a_hash" := "f0e4c2f7" ]} "f0e4c2f7").
  - vm_compute. reflexivity.
  - vm_compute. discriminate.
Defined.

(** ** load_config *)

Lemma load_items_lookup modules items (d0 d : gmap string differ) :
  NoDup items.*1 ->
  load_items modules items d0 = inr d ->
  (forall name spec, (name, spec) ∈ items ->
     exists func, resolve modules name spec = inr func /\ d !! name = Some func)
  /\ (forall name, name ∉ items.*1 -> d !! name = d0 !! name).
Proof.
  revert d0. induction items as [|[n s] rest IH]; intros d0 Hnd Hl.
  - injection Hl as <-. split; [|done]. intros name spec H. by apply elem_of_nil in H.
  - cbn in Hnd. apply NoDup_cons in Hnd as [Hn Hnd]. cbn [load_items] in Hl.
    destruct (resolve modules n s) as [e|func] eqn:Hr; [discriminate|].
    destruct (IH _ Hnd Hl) as [Hin Hout]. split.
    + intros name spec H. apply elem_of_cons in H as [[= -> ->]|H]; [|by apply Hin].
      exists func. split; [exact Hr|]. rewrite (Hout n Hn). apply lookup_insert_eq.
    + intros name Hname. cbn in Hname. apply not_elem_of_cons in Hname as [Hne Hname].
      rewrite (Hout name Hname). by apply lookup_insert_ne.
Qed.

(** X16. A configuration that loads gives a registry with exactly its names,
    each bound to the function its entry resolves to. *)
Theorem load_config_registry modules config d :
  NoDup config.*1 ->
  load_config modules config = inr d ->
  (forall name spec, (name, spec) ∈ config ->
     exists func, resolve modules name spec = inr func /\ d !! name = Some func)
  /\ (forall name, name ∉ config.*1 -> d !! name = None).
Proof.
  intros Hnd Hl. destruct (load_items_lookup _ _ _ _ Hnd Hl) as [Hin Hout].
  split; [exact Hin|]. intros name Hname. by rewrite (Hout name Hname).
Qed.

Lemma load_config_registry_witness :
  (forall name spec, (name, spec) ∈ sample_config ->
     exists func,
       resolve differs_module name spec = inr func
       /\ ({[ "length" := compare_length; "within" := within ]} : gmap string differ)
            !! name = Some func)
  /\ (forall name, name ∉ sample_config.*1 ->
        ({[ "length" := compare_length; "within" := within ]} : gmap string differ)
          !! name = None).
Proof.
  apply (load_config_registry differs_module sample_config).
  - cbn. repeat constructor; set_unfold; intuition discriminate.
  - vm_compute. reflexivity.
Defined.

(** X17. Loading stops at the first entry that does not resolve, with the
    error of that entry: a malformed entry, a module that cannot be imported
    or a function the module does not have. No registry is built. *)
Theorem load_config_first_error modules pre name spec post e :
  (forall n s, (n, s) ∈ pre -> exists func, resolve modules n s = inr func) ->
  resolve modules name spec = inl e ->
  load_config modules (pre ++ (name, spec) :: post) = inl e.
Proof.
  intros Hpre Hbad. unfold load_config. generalize (∅ : gmap string differ).
  induction pre as [|[n s] pre IH]; intros d.
  - cbn. by rewrite Hbad.
  - cbn. destruct (Hpre n s) as [func ->]; [by left|].
    apply IH. intros n' s' H. apply (Hpre n' s'). by right.
Qed.

Lemma load_config_first_error_witness :
  load_config differs_module
    ([("length", ["web_monitoring.differs"; "compare_length"])]
       ++ ("visual", ["web_monitoring.differs"; "pagefreezer"])
       :: [("within", ["web_monitoring.differs"; "within"])])
  = inl (AttributeError "web_monitoring.differs" "pagefreezer").
Proof.
  apply load_config_first_error.
  - intros n s H. apply elem_of_cons in H as [[= -> ->]|H]; [|by apply elem_of_nil in H].
    exists compare_length. vm_compute. reflexivity.
  - vm_compute. reflexivity.
Defined.

(** ** make_app *)

Lemma route_path path name : route path = Some name -> path = "/" +:+ name.
Proof.
  unfold route. destruct path as [|c0 path']; [discriminate|].
  destruct c0 as [[] [] [] [] [] [] [] []]; try discriminate;
    destruct path' as [|c rest]; try discriminate.
  destruct (all_chars is_word_char (String c rest)); [|discriminate].
  by intros [= <-].
Qed.

(** X18. An application made from a configuration answers 404, fetching
    nothing, to every path other than a slash followed by one of the
    configured names. *)
Theorem handle_get_unconfigured {codecs : Codecs.Registry} modules config app w path request :
  NoDup config.*1 ->
  make_app modules config = inr app ->
  (forall name, name ∈ config.*1 -> path <> "/" +:+ name) ->
  handle_get app w path request = ([], SendError 404 None).
Proof.
  intros Hnd Hmake Hpath. unfold make_app in Hmake.
  destruct (load_config modules config) as [|d] eqn:Hl; [discriminate|].
  injection Hmake as <-. unfold handle_get.
  destruct (route path) as [name|] eqn:Hr; [|reflexivity].
  apply route_path in Hr. cbn [differs].
  destruct (load_items_lookup _ _ _ _ Hnd Hl) as [_ Hout].
  unfold get. rewrite Hout, lookup_empty; [reflexivity|].
  intros Hin. by apply (Hpath name).
Qed.

Lemma handle_get_unconfigured_witness :
  handle_get (mkApplication {[ "length" := compare_length; "within" := within ]})
    web "/compare_length" (request_of [("a", "http://a"); ("b", "http://b")])
  = ([], SendError 404 None).
Proof.
  apply (handle_get_unconfigured differs_module sample_config).
  - cbn. repeat constructor; set_unfold; intuition discriminate.
  - vm_compute. reflexivity.
  - intros name Hin. cbn in Hin.
    apply elem_of_cons in Hin as [->|Hin]; [discriminate|].
    apply elem_of_cons in Hin as [->|Hin]; [discriminate|].
    by apply elem_of_nil in Hin.
Defined.

(** X19. For a configured name the application runs the handler with the
    function that the configuration names. *)
Theorem handle_get_configured {codecs : Codecs.Registry} modules config app w name spec request :
  NoDup config.*1 ->
  make_app modules config = inr app ->
  (name, spec) ∈ config ->
  route ("/" +:+ name) = Some name ->
  exists func,
    resolve modules name spec = inr func
    /\ handle_get app w ("/" +:+ name) request = get {[ name := func ]} w name request.
Proof.
  intros Hnd Hmake Hin Hroute. unfold make_app in Hmake.
  destruct (load_config modules config) as [|d] eqn:Hl; [discriminate|].
  injection Hmake as <-.
  destruct (load_items_lookup _ _ _ _ Hnd Hl) as [Hfound _].
  destruct (Hfound name spec Hin) as (func & Hres & Hd).
  exists func. split; [exact Hres|].
  unfold handle_get. rewrite Hroute. cbn [differs]. unfold get.
  by rewrite Hd, lookup_singleton_eq.
Qed.

Lemma handle_get_configured_witness :
  exists func,
    resolve differs_module "length" ["web_monitoring.differs"; "compare_length"] = inr func
    /\ handle_get (mkApplication {[ "length" := compare_length; "within" := within ]})
         web ("/" +:+ "length") (request_of [("a", "http://a"); ("b", "http://b")])
       = get {[ "length" := func ]} web "length"
           (request_of [("a", "http://a"); ("b", "http://b")]).
Proof.
  apply (handle_get_configured differs_module sample_config).
  - cbn. repeat constructor; set_unfold; intuition discriminate.
  - vm_compute. reflexivity.
  - left.
  - vm_compute. reflexivity.
Defined.

(** ** The default encoding *)

(** X20. When the Content-Type header of [a] names no charset, or an empty
    one, the special items are computed without any exception and [a_text]
    is the body of [a] decoded as UTF-8, its ill-formed bytes left out. *)
Theorem a_text_default_encoding {codecs : Codecs.Registry} a b enc :
  _extract_encoding (headers a) = Ok enc ->
  enc = None \/ enc = Some "" ->
  exists items,
    special_items a b = Ok items
    /\ items !! "a_text" = Some (VStr (Codecs.utf8_decode_ignore (body a))).
Proof.
  intros Henc Hnone. unfold special_items, supplement. rewrite Henc. cbn [rbind].
  assert (Hdef : or_default enc "UTF-8" = "UTF-8") by (by destruct Hnone as [->| ->]).
  rewrite Hdef, !utf8_never_raises. cbn [rbind].
  eexists. split; [reflexivity|].
  rewrite !setdefault_union, !(left_id_L ∅ (∪)).
  rewrite lookup_union_l by reflexivity.
  rewrite lookup_union_r by reflexivity. reflexivity.
Qed.

Lemma a_text_default_encoding_witness :
  exists items,
    special_items (page "http://c" (Some "text/html; charset=") [x61; xff; x62]) page_a
    = Ok items
    /\ items !! "a_text" = Some (VStr "ab").
Proof.
  apply (a_text_default_encoding
           (page "http://c" (Some "text/html; charset=") [x61; xff; x62]) page_a (Some "")).
  - vm_compute. reflexivity.
  - by right.
Defined.
